(** * Preliminary modelling notebook: the label binarizer, the baseline
      estimator, the sparsifier, the model selector and the weight inspector

    The notebook [3-preliminary-modelling.ipynb] is straight-line code over
    pandas, scipy and scikit-learn objects.  Each notebook cell is embedded
    as a function of the objects it reads; the library calls it makes are
    embedded operation by operation ([==], [astype], attribute selection,
    [value_counts], [[0]], [sparse.to_coo], [sort_values], [head]).

    Numbers are the ones of the code: [float64] cells are Rocq's binary64
    primitive floats, integer labels are [Z], row counts are [nat]. *)

From Stdlib Require Import ZArith List Lia Bool.
From Stdlib Require Import Sorting.Sorted Sorting.Permutation.
From Stdlib Require Import Strings.String Strings.Ascii.
From Stdlib Require Import Floats Numbers.Cyclic.Int63.Uint63.
From stdpp Require Import base option list strings gmap.
Import ListNotations.

Local Open Scope Z_scope.
Local Open Scope string_scope.
Local Open Scope list_scope.

(* ===================================================================== *)
(** * Python outcomes                                                     *)
(* ===================================================================== *)

(** The exceptions the notebook's calls can raise. *)
Inductive exn : Type :=
| KeyError
| AttributeError
| ValueError
| NameError.

(** A call either returns a value or raises. *)
Inductive result (A : Type) : Type :=
| Ok (a : A)
| Raise (e : exn).
Arguments Ok {A} a.
Arguments Raise {A} e.

Definition rbind {A B : Type} (r : result A) (k : A -> result B) : result B :=
  match r with
  | Ok a => k a
  | Raise e => Raise e
  end.

Declare Scope py_scope.
Delimit Scope py_scope with py.
Notation "'let!' x ':=' c 'in' k" := (rbind c (fun x => k))
  (at level 10, x name, c at level 100, k at level 200) : py_scope.
Local Open Scope py_scope.

(** The outcome of a piece of the notebook in this development: what
    Python does ([Done], a value or an exception), or [OutOfModel] where
    the piece makes a call whose behaviour is not described here (a method
    called on an object of another kind than the notebook gives it, a
    cross-validation in which a fit fails).  Nothing is stated about
    Python in that case.  A [result] is read as the outcome [Done] of
    it. *)
Inductive outcome (A : Type) : Type :=
| Done (r : result A)
| OutOfModel.
Arguments Done {A} r.
Arguments OutOfModel {A}.

Coercion Done : result >-> outcome.

Definition obind {A B : Type} (o : outcome A) (k : A -> outcome B) : outcome B :=
  match o with
  | Done (Ok a) => k a
  | Done (Raise e) => Done (Raise e)
  | OutOfModel => OutOfModel
  end.

Notation "'let*' x ':=' c 'in' k" := (obind c (fun x => k))
  (at level 10, x name, c at level 100, k at level 200) : py_scope.

(* ===================================================================== *)
(** * Data model                                                          *)
(* ===================================================================== *)

(** A value stored in an [object] column of the pickled label frame: a
    string, an integer, a float (pandas stores a missing value as the float
    NaN) or [None]. *)
Inductive pyobj : Type :=
| PyStr (s : string)
| PyInt (z : Z)
| PyFloat (f : float)
| PyNone.

(** A DataFrame: row labels and labelled columns, in column order.  [I] is
    the type of the row labels, [A] the type of the cells. *)
Record frame (I A : Type) : Type := Frame {
  index : list I;
  columns : list (string * list A)
}.
Arguments Frame {I A} index columns.
Arguments index {I A} f.
Arguments columns {I A} f.

(** A Series: row labels and one column of values. *)
Record series (I A : Type) : Type := Series {
  s_index : list I;
  s_values : list A
}.
Arguments Series {I A} s_index s_values.
Arguments s_index {I A} s.
Arguments s_values {I A} s.

Definition labels {I A : Type} (df : frame I A) : list string :=
  map fst (columns df).

Definition n_rows {I A : Type} (df : frame I A) : nat := length (index df).
Definition n_cols {I A : Type} (df : frame I A) : nat := length (columns df).

(** [df.shape] *)
Definition frame_shape {I A : Type} (df : frame I A) : nat * nat :=
  (n_rows df, n_cols df).

(** A DataFrame is rectangular: every column has one cell per row label. *)
Definition rectangular {I A : Type} (df : frame I A) : Prop :=
  Forall (fun c => length (snd c) = n_rows df) (columns df).

(** The column with a given label, if there is one. *)
Fixpoint find_column {A : Type} (name : string) (cols : list (string * list A))
  : option (list A) :=
  match cols with
  | [] => None
  | (l, c) :: rest => if String.eqb l name then Some c else find_column name rest
  end.

Definition column {I A : Type} (df : frame I A) (name : string) : option (list A) :=
  find_column name (columns df).

(** Applying a function to every cell; labels and shape are kept. *)
Definition frame_map {I A B : Type} (f : A -> B) (df : frame I A) : frame I B :=
  Frame (index df) (map (fun c => (fst c, map f (snd c))) (columns df)).

(** Number of elements of a list that pass a test. *)
Fixpoint count_if {A : Type} (p : A -> bool) (l : list A) : nat :=
  match l with
  | [] => 0%nat
  | x :: rest => if p x then S (count_if p rest) else count_if p rest
  end.

(* ===================================================================== *)
(** * Cell 4: the label binarizer                                         *)
(* ===================================================================== *)

Module Binarizer.

(** Python's [v == 'Fatal'] for a cell [v] and a string: true only for a
    string with the same characters. *)
Definition py_eq_str (v : pyobj) (s : string) : bool :=
  match v with
  | PyStr t => String.eqb t s
  | PyInt _ | PyFloat _ | PyNone => false
  end.

(** [df == s]: the frame of the cell-wise comparisons. *)
Definition frame_eq_str {I : Type} (df : frame I pyobj) (s : string) : frame I bool :=
  frame_map (fun v => py_eq_str v s) df.

(** [.astype('int')] on a boolean frame. *)
Definition astype_int {I : Type} (df : frame I bool) : frame I Z :=
  frame_map Z.b2z df.

(** [df.name]: the column of that label as a Series; AttributeError when
    the frame has no such column.  Column labels are taken to be distinct,
    as they are in the pickled frames. *)
Definition getattr {I A : Type} (df : frame I A) (name : string) : result (series I A) :=
  match column df name with
  | Some c => Ok (Series (index df) c)
  | None => Raise AttributeError
  end.

(** [(y == 'Fatal').astype('int').cm_highestinjury] *)
Definition binarize {I : Type} (y : frame I pyobj) : result (series I Z) :=
  getattr (astype_int (frame_eq_str y "Fatal")) "cm_highestinjury".

Definition is_fatal (v : pyobj) : bool := py_eq_str v "Fatal".

(** The same expression on a Series of integers, which is what [y_train]
    names once the cell has run: [v == s] compares element by element and
    no integer equals a string; [.astype('int')] turns the booleans into
    integers. *)
Definition series_eq_str {I : Type} (v : series I Z) (s : string) : series I bool :=
  Series (s_index v) (map (fun z => py_eq_str (PyInt z) s) (s_values v)).

Definition series_astype_int {I : Type} (v : series I bool) : series I Z :=
  Series (s_index v) (map Z.b2z (s_values v)).

(** [v.name] on a Series with integer row labels: a Series has no columns,
    and only a row label that is a string can be reached as an attribute;
    so AttributeError. *)
Definition series_getattr {A : Type} (v : series Z A) (name : string)
  : result (series Z A) :=
  Raise AttributeError.

Definition binarize_series (y : series Z Z) : result (series Z Z) :=
  series_getattr (series_astype_int (series_eq_str y "Fatal")) "cm_highestinjury".

End Binarizer.

(* ===================================================================== *)
(** * Cell 7: the baseline estimator                                      *)
(* ===================================================================== *)

Module Baseline.

Local Open Scope float_scope.

(** An [int64] count as a [float64], the conversion the true division of
    two integer arrays applies to its operands. *)
Definition float_of_nat (n : nat) : float :=
  PrimFloat.of_uint63 (Uint63.of_Z (Z.of_nat n)).

(** [c / n] on [float64]. *)
Definition proportion (c n : nat) : float :=
  float_of_nat c / float_of_nat n.

(** The hash-table pass of [value_counts]: every distinct value with its
    number of occurrences, in order of first appearance. *)
Fixpoint bump (v : Z) (tbl : list (Z * nat)) : list (Z * nat) :=
  match tbl with
  | [] => [(v, 1%nat)]
  | (k, c) :: rest =>
      if Z.eqb k v then (k, S c) :: rest else (k, c) :: bump v rest
  end.

Definition value_counts_arraylike (vals : list Z) : list (Z * nat) :=
  fold_left (fun tbl v => bump v tbl) vals [].

(** [sort_values(ascending=False)] of the count table.  The order of two
    entries with the same count is that of first appearance here; no
    definition below reads the order of the table. *)
Fixpoint insert_by_count (e : Z * nat) (tbl : list (Z * nat)) : list (Z * nat) :=
  match tbl with
  | [] => [e]
  | x :: rest =>
      if Nat.leb (snd x) (snd e) then e :: x :: rest
      else x :: insert_by_count e rest
  end.

Definition sort_by_count (tbl : list (Z * nat)) : list (Z * nat) :=
  fold_right insert_by_count [] tbl.

(** [s.value_counts(normalize=True)]: the Series indexed by the distinct
    values, most frequent first, holding [count / counts.sum()]. *)
Definition value_counts_normalize {I : Type} (s : series I Z) : series Z float :=
  let tbl := sort_by_count (value_counts_arraylike (s_values s)) in
  let total := fold_right (fun e acc => (snd e + acc)%nat) 0%nat tbl in
  Series (map fst tbl) (map (fun e => proportion (snd e) total) tbl).

(** [s[k]] on a Series whose index holds integers: [k] is a row label, not
    a position; KeyError when no row carries it. *)
Fixpoint lookup_label {A : Type} (k : Z) (idx : list Z) (vals : list A) : option A :=
  match idx, vals with
  | i :: idx', v :: vals' => if Z.eqb i k then Some v else lookup_label k idx' vals'
  | _, _ => None
  end.

Definition getitem {A : Type} (s : series Z A) (k : Z) : result A :=
  match lookup_label k (s_index s) (s_values s) with
  | Some v => Ok v
  | None => Raise KeyError
  end.

(** The value the cell prints:
    [y_test.value_counts(normalize=True)[0]]. *)
Definition baseline_accuracy {I : Type} (y_test : series I Z) : result float :=
  getitem (value_counts_normalize y_test) 0%Z.

(** The accuracy of always predicting the most frequent of the two classes,
    in the words of the specification:
    [max(count of 0s, count of 1s) / total rows]. *)
Definition majority_proportion (vals : list Z) : float :=
  proportion (Nat.max (count_if (Z.eqb 0) vals) (count_if (Z.eqb 1) vals))
             (length vals).

End Baseline.

(* ===================================================================== *)
(** * Cell 3: the sparsifier                                              *)
(* ===================================================================== *)

Module Sparsifier.

Local Open Scope float_scope.

(** A pandas [SparseArray]: the positions and values of the cells that
    differ from the fill value. *)
Record SparseArray : Type := MkSparseArray {
  sp_length : nat;
  sp_indices : list nat;
  sp_values : list float;
  fill_value : float
}.

(** The cells a sparse array keeps: [arr != fill_value] on [float64], or
    the cells that are not NaN when the fill value is NaN. *)
Definition kept (fill x : float) : bool :=
  if PrimFloat.is_nan fill then negb (PrimFloat.is_nan x)
  else negb (PrimFloat.eqb x fill).

(** The kept cells of a column with their positions, scanning from
    position [i]. *)
Fixpoint sparse_entries (fill : float) (i : nat) (arr : list float)
  : list (nat * float) :=
  match arr with
  | [] => []
  | x :: rest =>
      if kept fill x then (i, x) :: sparse_entries fill (S i) rest
      else sparse_entries fill (S i) rest
  end.

Definition make_sparse (arr : list float) (fill : float) : SparseArray :=
  let es := sparse_entries fill 0 arr in
  MkSparseArray (length arr) (map fst es) (map snd es) fill.

(** A frame whose columns are sparse arrays. *)
Record sparse_frame (I : Type) : Type := SparseFrame {
  sf_index : list I;
  sf_columns : list (string * SparseArray)
}.
Arguments SparseFrame {I} sf_index sf_columns.
Arguments sf_index {I} s.
Arguments sf_columns {I} s.

(** [df.astype(pd.SparseDtype("float64", fill))]: a new frame, column by
    column; the cells are given as [float64] values already. *)
Definition astype_sparse {I : Type} (df : frame I float) (fill : float)
  : sparse_frame I :=
  SparseFrame (index df)
              (map (fun c => (fst c, make_sparse (snd c) fill)) (columns df)).

(** A scipy matrix in coordinate format. *)
Record coo_matrix : Type := MkCoo {
  shape : nat * nat;
  coo_row : list nat;
  coo_col : list nat;
  coo_data : list float
}.

(** The loop of [.sparse.to_coo()]: the columns in order, each giving its
    stored positions as row numbers, its own number repeated as column
    numbers, and its stored values; ValueError on a column whose fill
    value is not 0.  The three runs are then concatenated, which raises
    ValueError when the frame has no column at all. *)
Fixpoint to_coo_columns (j : nat) (cols : list (string * SparseArray))
  : result (list nat * list nat * list float) :=
  match cols with
  | [] => Ok ([], [], [])
  | (_, a) :: rest =>
      if negb (PrimFloat.eqb (fill_value a) 0) then Raise ValueError
      else
        let! r := to_coo_columns (S j) rest in
        let '(rows, cs, data) := r in
        Ok ((sp_indices a ++ rows)%list,
            (replicate (length (sp_indices a)) j ++ cs)%list,
            (sp_values a ++ data)%list)
  end.

Definition to_coo {I : Type} (sf : sparse_frame I) : result coo_matrix :=
  match sf_columns sf with
  | [] => Raise ValueError
  | _ :: _ =>
      let! r := to_coo_columns 0 (sf_columns sf) in
      let '(rows, cs, data) := r in
      Ok (MkCoo (length (sf_index sf), length (sf_columns sf)) rows cs data)
  end.

(** [X.astype(pd.SparseDtype("float64",0)).sparse.to_coo()] *)
Definition sparsify {I : Type} (X : frame I float) : result coo_matrix :=
  to_coo (astype_sparse X 0).

(** The dense array of a frame, row by row ([df.values]). *)
Definition to_numpy {I : Type} (df : frame I float) : list (list float) :=
  map (fun i => map (fun c => nth i (snd c) 0) (columns df))
      (seq 0 (n_rows df)).

(** Densifying, as scipy's [toarray] does it (the notebook itself never
    densifies): an array of zeros of the matrix's shape, to which every
    stored triple adds its value at its coordinates. *)
Definition zeros (r c : nat) : list (list float) := replicate r (replicate c 0).

Definition add_at (B : list (list float)) (i j : nat) (v : float)
  : list (list float) :=
  alter (alter (fun x => x + v) j) i B.

Fixpoint add_triples (B : list (list float)) (rows cs : list nat)
  (data : list float) : list (list float) :=
  match rows, cs, data with
  | i :: rows', j :: cs', v :: data' => add_triples (add_at B i j v) rows' cs' data'
  | _, _, _ => B
  end.

Definition toarray (m : coo_matrix) : list (list float) :=
  add_triples (zeros (fst (shape m)) (snd (shape m)))
              (coo_row m) (coo_col m) (coo_data m).

(** The stored entries of a coordinate matrix as triples
    [(row, column, value)]. *)
Definition coo_triples (m : coo_matrix) : list (nat * nat * float) :=
  zip (zip (coo_row m) (coo_col m)) (coo_data m).

(** The cell of a frame at row position [i] and column position [j]. *)
Definition cell {I : Type} (df : frame I float) (i j : nat) : option float :=
  match columns df !! j with
  | Some c => snd c !! i
  | None => None
  end.

(** A cell as it comes back: a zero of either sign comes back as the fill
    value [0], any other cell (NaN and the infinities included) comes back
    as it is. *)
Definition stored_value (x : float) : float :=
  if PrimFloat.eqb x 0 then 0 else x.

(** Two cells are equal with no tolerance, in the sense of pandas'
    [equals]: they are identical (so a NaN equals the NaN at the same
    place), or they compare equal under [float64]'s [==]. *)
Definition same_value (x y : float) : Prop :=
  x = y \/ PrimFloat.eqb x y = true.

End Sparsifier.

(* ===================================================================== *)
(** * Cell 11: the weight inspector                                       *)
(* ===================================================================== *)

Module Inspector.

Local Open Scope float_scope.

(** [pd.DataFrame(coef, index=idx)]: one column, labelled [0], over the
    given row labels; ValueError when the lengths differ. *)
Definition make_weight_frame (coef : list float) (idx : list string)
  : result (frame string float) :=
  if Nat.eqb (length coef) (length idx) then Ok (Frame idx [("0", coef)])
  else Raise ValueError.

(** [df.columns = names]: the columns relabelled in order; ValueError when
    there are not as many names as columns. *)
Definition set_columns {I A : Type} (df : frame I A) (names : list string)
  : result (frame I A) :=
  if Nat.eqb (length names) (n_cols df)
  then Ok (Frame (index df) (zip names (map snd (columns df))))
  else Raise ValueError.

(** The rows of a frame as the table shows them: each row label with its
    cell in the column [key]; KeyError when there is no such column. *)
Definition rows_by {I : Type} (df : frame I float) (key : string)
  : result (list (I * float)) :=
  match column df key with
  | Some c => Ok (zip (index df) c)
  | None => Raise KeyError
  end.

Definition nan_row {I : Type} (r : I * float) : bool := PrimFloat.is_nan (snd r).
Definition num_row {I : Type} (r : I * float) : bool := negb (nan_row r).

(** [a] may stand before [b] in descending order. *)
Definition desc {I : Type} (a b : I * float) : Prop :=
  PrimFloat.leb (snd b) (snd a) = true.

(** [rows.sort_values(key, ascending=False)] as the notebook calls it, with
    the sorting algorithm left at its default [kind='quicksort'] and
    [na_position='last']: the rows whose weight is a number, reordered so
    that the weights descend, then the rows whose weight is NaN.  The
    default algorithm fixes no order among rows of equal weight, so the
    call is a relation between the table and its possible results. *)
Definition sort_values_desc {I : Type} (rows sorted : list (I * float)) : Prop :=
  exists body tail,
    sorted = (body ++ tail)%list /\
    Permutation (List.filter num_row rows) body /\
    Permutation (List.filter nan_row rows) tail /\
    StronglySorted desc body.

(** [.head(n)] *)
Definition head {A : Type} (n : nat) (l : list A) : list A := take n l.

(** The whole cell: the table built from the fitted weights and the column
    labels of the dense training frame, relabelled, sorted and cut to 30
    rows. *)
Definition inspect (coef : list float) (cols : list string)
  (top : list (string * float)) : Prop :=
  exists df0 df rows sorted,
    make_weight_frame coef cols = Ok df0 /\
    set_columns df0 ["Weight"] = Ok df /\
    rows_by df "Weight" = Ok rows /\
    sort_values_desc rows sorted /\
    top = head 30 sorted.

(** The order the specification words ask for: descending by weight, rows
    of equal weight in their original order, NaN weights last.  This is an
    insertion sort; it is the reference the cell is compared with, not
    code of the notebook. *)
Fixpoint insert_stable {I : Type} (r : I * float) (l : list (I * float))
  : list (I * float) :=
  match l with
  | [] => [r]
  | x :: rest =>
      if PrimFloat.leb (snd x) (snd r) then r :: x :: rest
      else x :: insert_stable r rest
  end.

Definition stable_sort_desc {I : Type} (rows : list (I * float)) : list (I * float) :=
  (fold_right insert_stable [] (List.filter num_row rows)
   ++ List.filter nan_row rows)%list.

End Inspector.

(* ===================================================================== *)
(** * Cell 8: the model selector                                          *)
(* ===================================================================== *)

Module Selector.

Local Open Scope float_scope.
Import Sparsifier Baseline.

(** The two penalty names of the sweep. *)
Inductive penalty : Type := l1 | l2.

(** One hyperparameter configuration. *)
Record params : Type := MkParams {
  p_penalty : penalty;
  p_C : float
}.

(** The dictionary [logreg_params]: a list of values per parameter. *)
Record param_grid : Type := MkGrid {
  grid_penalty : list penalty;
  grid_C : list float
}.

(** [{'penalty':['l1','l2'], 'C':[0.01,0.1,1,10,100]}]; the literals
    [0.01] and [0.1] are written as the binary64 values they denote. *)
Definition logreg_params : param_grid :=
  MkGrid [l1; l2]
         [0x1.47ae147ae147bp-7; 0x1.999999999999ap-4; 1; 10; 100].

(** Modelled from the spec: the grid search and the classifier it drives
    are scikit-learn's, not code of the notebook.  The enumeration of the
    grid follows the library's documented order (parameter names sorted,
    here [C] before [penalty], the last name varying fastest). *)
Definition ParameterGrid (g : param_grid) : list params :=
  flat_map (fun c => map (fun p => MkParams p c) (grid_penalty g)) (grid_C g).

(** The index of the first greatest element of a list of scores: the scan
    keeps the best index and score so far and moves only to a strictly
    greater score. *)
Fixpoint argmax_from (best_i : nat) (best : float) (i : nat) (l : list float) : nat :=
  match l with
  | [] => best_i
  | x :: rest =>
      if PrimFloat.ltb best x then argmax_from i x (S i) rest
      else argmax_from best_i best (S i) rest
  end.

Definition argmax_first (l : list float) : nat :=
  match l with
  | [] => 0%nat
  | x :: rest => argmax_from 0 x 1 rest
  end.

(** Number of positions at which two label vectors agree. *)
Fixpoint agreements (y_true y_pred : list Z) : nat :=
  match y_true, y_pred with
  | a :: y_true', b :: y_pred' =>
      if Z.eqb a b then S (agreements y_true' y_pred') else agreements y_true' y_pred'
  | _, _ => 0%nat
  end.

(** [accuracy_score]: the share of the rows predicted right. *)
Definition accuracy (y_true y_pred : list Z) : float :=
  proportion (agreements y_true y_pred) (length y_true).

(** The arithmetic mean of a list of scores. *)
Definition mean (l : list float) : float :=
  fold_left PrimFloat.add l 0 / float_of_nat (length l).

(** One split of the cross-validation: a training part and a validation
    part, each a matrix with its labels. *)
Definition cv_split : Type := (coo_matrix * list Z) * (coo_matrix * list Z).

Section Sklearn.

(** Modelled from the spec: the linear classifier and the fold splitter.
    They are scikit-learn's and are taken as given, each a call that
    returns or raises: [fit] trains one configuration on a feature matrix
    and labels, [predict] labels the rows of a matrix, and [kfold k] cuts
    the training data into [k] splits. *)
Variable Estimator : Type.
Variable fit : params -> coo_matrix -> list Z -> result Estimator.
Variable predict : Estimator -> coo_matrix -> result (list Z).
Variable kfold : nat -> coo_matrix -> list Z -> result (list cv_split).

(** [estimator.score(X, y)]: the accuracy of the predictions for [X]
    against [y]; ValueError when there is not one prediction per label. *)
Definition score (e : Estimator) (X : coo_matrix) (y : list Z) : result float :=
  let! y_pred := predict e X in
  if Nat.eqb (length y_pred) (length y) then Ok (accuracy y y_pred)
  else Raise ValueError.

(** The score of one configuration on one split: fit on the training
    part, score on the validation part.  No score when the fit or the
    scoring raises: what the search makes of such a split is not
    described here. *)
Definition fold_score (p : params) (sp : cv_split) : option float :=
  match fit p (fst (fst sp)) (snd (fst sp)) with
  | Ok e =>
      match score e (fst (snd sp)) (snd (snd sp)) with
      | Ok v => Some v
      | Raise _ => None
      end
  | Raise _ => None
  end.

(** The mean cross-validated score of one configuration over the splits. *)
Definition mean_test_score (p : params) (splits : list cv_split) : option float :=
  option_map mean (mapM (fold_score p) splits).

(** The table of the search: every configuration with its mean score. *)
Definition cv_results (cands : list params) (splits : list cv_split)
  : option (list (params * float)) :=
  mapM (fun p => option_map (fun m => (p, m)) (mean_test_score p splits)) cands.

(** A fitted grid search. *)
Record GridSearchCV : Type := MkGridSearch {
  cv_results_ : list (params * float);
  best_index_ : nat;
  best_params_ : params;
  best_estimator_ : Estimator
}.

(** Modelled from the spec: [GridSearchCV(estimator, grid).fit(X, y)] with
    the defaults [cv=5] and [refit=True]: ValueError on an empty grid; the
    training data are cut into five splits; every configuration of the
    grid gets its mean cross-validated score; the first one with the
    greatest score is selected and fitted again on all of [X], [y].  An
    exception of the splitter or of the last fit is the exception of the
    call.  The notebook's [n_jobs=-1] only spreads the fits over worker
    processes and is not part of the model. *)
Definition grid_fit (g : param_grid) (X : coo_matrix) (y : list Z)
  : outcome GridSearchCV :=
  match ParameterGrid g with
  | [] => Raise ValueError
  | first :: others =>
      let* splits := kfold 5 X y in
      match cv_results (first :: others) splits with
      | None => OutOfModel
      | Some results =>
          let i := argmax_first (map snd results) in
          let best := nth i (first :: others) first in
          let* e := fit best X y in
          Ok (MkGridSearch results i best e)
      end
  end.

(** [logreg_grid.score(X, y)]: the score of the refitted estimator. *)
Definition grid_score (gs : GridSearchCV) (X : coo_matrix) (y : list Z)
  : result float :=
  score (best_estimator_ gs) X y.

(** The cell: fit the search on the training data, then print the training
    and the testing accuracy. *)
Definition select_and_score (X_train : coo_matrix) (y_train : list Z)
  (X_test : coo_matrix) (y_test : list Z)
  : outcome (GridSearchCV * float * float) :=
  let* gs := grid_fit logreg_params X_train y_train in
  let* train_accuracy := grid_score gs X_train y_train in
  let* test_accuracy := grid_score gs X_test y_test in
  Ok (gs, train_accuracy, test_accuracy).

End Sklearn.

End Selector.

(* ===================================================================== *)
(** * The notebook as a run over a store of objects                       *)
(* ===================================================================== *)

Module Notebook.

Import Sparsifier Binarizer Baseline Selector Inspector.

(** The four pickled inputs of cell 2. *)
Record pickles : Type := MkPickles {
  train : frame Z float;
  test : frame Z float;
  train_severity : frame Z pyobj;
  test_severity : frame Z pyobj
}.

(** What a cell prints: a text and a number. *)
Inductive output : Type :=
| Print (text : string) (v : float).

Section Run.

Variable Estimator : Type.
Variable fit : params -> coo_matrix -> list Z -> result Estimator.
Variable predict : Estimator -> coo_matrix -> result (list Z).
Variable coef_ : Estimator -> list float.
Variable kfold : nat -> coo_matrix -> list Z -> result (list cv_split).

(** The objects the notebook's variables refer to. *)
Inductive obj : Type :=
| ODense (df : frame Z float)
| OLabels (df : frame Z pyobj)
| OSeries (s : series Z Z)
| OCoo (m : coo_matrix)
| OParams (g : param_grid)
| OGrid (gs : GridSearchCV Estimator)
| OWeights (df : frame string float).

(** Python's store: variables name locations, locations hold objects; two
    variables naming one location share the object. *)
Record store : Type := MkStore {
  env : gmap string nat;
  heap : gmap nat obj;
  next : nat
}.

Definition empty_store : store := MkStore ∅ ∅ 0.

(** A call that builds an object puts it at a fresh location. *)
Definition alloc (o : obj) (s : store) : nat * store :=
  (next s, MkStore (env s) (<[next s := o]> (heap s)) (S (next s))).

(** [x = ...] binds the name; the object it named before is untouched. *)
Definition assign (x : string) (l : nat) (s : store) : store :=
  MkStore (<[x := l]> (env s)) (heap s) (next s).

(** [x = <a call building a new object>] *)
Definition new (x : string) (o : obj) (s : store) : store :=
  assign x (fst (alloc o s)) (snd (alloc o s)).

(** Writing into the object at a location, as an attribute assignment
    does. *)
Definition update (l : nat) (o : obj) (s : store) : store :=
  MkStore (env s) (<[l := o]> (heap s)) (next s).

Definition deref (s : store) (x : string) : option obj :=
  match env s !! x with
  | Some l => heap s !! l
  | None => None
  end.

Definition read (x : string) (s : store) : result obj :=
  match deref s x with
  | Some o => Ok o
  | None => Raise NameError
  end.

(** Python has no type check at a call: a method runs on whatever object
    the variable names.  The notebook's calls are described on the kinds
    of object its cells give to the variables they read; on another kind
    the call is outside the model. *)
Definition as_dense (o : obj) : outcome (frame Z float) :=
  match o with ODense df => Ok df | _ => OutOfModel end.
Definition as_series (o : obj) : outcome (series Z Z) :=
  match o with OSeries v => Ok v | _ => OutOfModel end.
Definition as_coo (o : obj) : outcome coo_matrix :=
  match o with OCoo m => Ok m | _ => OutOfModel end.
Definition as_params (o : obj) : outcome param_grid :=
  match o with OParams g => Ok g | _ => OutOfModel end.
Definition as_grid (o : obj) : outcome (GridSearchCV Estimator) :=
  match o with OGrid gs => Ok gs | _ => OutOfModel end.

(** Cell 2: the four [pd.read_pickle] calls. *)
Definition cell_load (files : pickles) (s : store) : store :=
  new "y_test" (OLabels (test_severity files))
    (new "y_train" (OLabels (train_severity files))
      (new "X_test_tfidf" (ODense (test files))
        (new "X_train_tfidf" (ODense (train files)) s))).

(** [target = source.astype(pd.SparseDtype("float64",0)).sparse.to_coo()] *)
Definition sparsify_var (target source : string) (s : store) : outcome store :=
  let* o := read source s in
  let* df := as_dense o in
  let* m := sparsify df in
  Ok (new target (OCoo m) s).

(** Cell 3 *)
Definition cell_sparsify (s : store) : outcome (store * list output) :=
  let* s1 := sparsify_var "X_train_sparse" "X_train_tfidf" s in
  let* s2 := sparsify_var "X_test_sparse" "X_test_tfidf" s1 in
  Ok (s2, []).

(** [(y == 'Fatal').astype('int').cm_highestinjury] on the object [y]
    names: the loaded label frame, or the vector of integers the cell has
    put in its place when it runs a second time. *)
Definition binarize_obj (o : obj) : outcome (series Z Z) :=
  match o with
  | OLabels df => binarize df
  | OSeries v => binarize_series v
  | _ => OutOfModel
  end.

(** [y = (y == 'Fatal').astype('int').cm_highestinjury] *)
Definition binarize_var (y : string) (s : store) : outcome store :=
  let* o := read y s in
  let* v := binarize_obj o in
  Ok (new y (OSeries v) s).

(** Cell 4 *)
Definition cell_binarize (s : store) : outcome (store * list output) :=
  let* s1 := binarize_var "y_train" s in
  let* s2 := binarize_var "y_test" s1 in
  Ok (s2, []).

(** Cell 7 *)
Definition cell_baseline (s : store) : outcome (store * list output) :=
  let* o := read "y_test" s in
  let* y := as_series o in
  let* b := baseline_accuracy y in
  Ok (s, [Print "The baseline accuracy is" b]).

(** Cell 8: the grid is bound to [logreg_params], the search is built
    from it and fitted, and the two accuracies are printed. *)
Definition cell_gridsearch (s : store) : outcome (store * list output) :=
  let s0 := new "logreg_params" (OParams logreg_params) s in
  let* og := read "logreg_params" s0 in
  let* g := as_params og in
  let* ox := read "X_train_sparse" s0 in
  let* X_train := as_coo ox in
  let* oy := read "y_train" s0 in
  let* y_train := as_series oy in
  let* gs := grid_fit Estimator fit predict kfold g X_train (s_values y_train) in
  let s1 := new "logreg_grid" (OGrid gs) s0 in
  let* train_accuracy :=
    grid_score Estimator predict gs X_train (s_values y_train) in
  let* ox' := read "X_test_sparse" s1 in
  let* X_test := as_coo ox' in
  let* oy' := read "y_test" s1 in
  let* y_test := as_series oy' in
  let* test_accuracy :=
    grid_score Estimator predict gs X_test (s_values y_test) in
  Ok (s1, [Print "Training accuracy:" train_accuracy;
           Print "Testing accuracy:" test_accuracy]).

(** Cell 11, up to the table it leaves in [parameter_weight_df]: the frame
    is built over the column labels of the dense training frame, then its
    own column is relabelled in place. *)
Definition cell_inspect (s : store) : outcome (store * list output) :=
  let* og := read "logreg_grid" s in
  let* gs := as_grid og in
  let* ox := read "X_train_tfidf" s in
  let* X := as_dense ox in
  let* df0 := make_weight_frame (coef_ (best_estimator_ Estimator gs)) (labels X) in
  let s1 := new "parameter_weight_df" (OWeights df0) s in
  match env s1 !! "parameter_weight_df" with
  | None => Raise NameError
  | Some l =>
      match heap s1 !! l with
      | Some (OWeights d) =>
          let* d' := set_columns d ["Weight"] in
          Ok (update l (OWeights d') s1, [])
      | _ => OutOfModel
      end
  end.

(** The table the last expression of cell 11 shows. *)
Definition shown (s : store) (top : list (string * float)) : Prop :=
  exists df rows sorted,
    deref s "parameter_weight_df" = Some (OWeights df) /\
    rows_by df "Weight" = Ok rows /\
    sort_values_desc rows sorted /\
    top = head 30 sorted.

(** The cells after the load, in order. *)
Definition notebook : list (store -> outcome (store * list output)) :=
  [cell_sparsify; cell_binarize; cell_baseline; cell_gridsearch; cell_inspect].

Fixpoint run (cells : list (store -> outcome (store * list output)))
  (s : store) : outcome (store * list output) :=
  match cells with
  | [] => Ok (s, [])
  | c :: rest =>
      let* r := c s in
      let* r' := run rest (fst r) in
      Ok (fst r', snd r ++ snd r')
  end.

End Run.

End Notebook.

(* ===================================================================== *)
(** * Sample inputs                                                     *)
(* ===================================================================== *)

Section Samples.
Import Sparsifier Selector Notebook.
Local Open Scope float_scope.

(** Three test reports, two of them fatal. *)
Definition fatal_majority_labels : frame Z pyobj :=
  Frame [0; 1; 2]%Z
        [("cm_highestinjury", [PyStr "Fatal"; PyStr "Fatal"; PyStr "Minor"])].

(** Labels that miss the spelling ["Fatal"]: other case, trailing blank,
    another class, a missing value. *)
Definition misspelled_labels : frame Z pyobj :=
  Frame [0; 1; 2; 3; 4]%Z
        [("cm_highestinjury",
          [PyStr "fatal"; PyStr "FATAL"; PyStr "Fatal "; PyStr "Serious";
           PyFloat nan])].

(** The toy labels of the specification's end-to-end scenario. *)
Definition toy_labels : frame Z pyobj :=
  Frame [0; 1; 2; 3]%Z
        [("cm_highestinjury",
          [PyStr "Fatal"; PyStr "Minor"; PyStr "Fatal"; PyStr "Minor"])].

(** A dense frame of two reports over three columns. *)
Definition toy_dense : frame Z float :=
  Frame [0; 1]%Z
        [("airframe", [0.5; 0]); ("radar", [0; 0]); ("make_Dix", [1; 0.25])].

(** A table of 31 features whose fitted weights are all zero, as an
    L1-penalised fit gives them. *)
Definition tied_rows : list (string * float) :=
    [("w00", 0);
     ("w01", 0);
     ("w02", 0);
     ("w03", 0);
     ("w04", 0);
     ("w05", 0);
     ("w06", 0);
     ("w07", 0);
     ("w08", 0);
     ("w09", 0);
     ("w10", 0);
     ("w11", 0);
     ("w12", 0);
     ("w13", 0);
     ("w14", 0);
     ("w15", 0);
     ("w16", 0);
     ("w17", 0);
     ("w18", 0);
     ("w19", 0);
     ("w20", 0);
     ("w21", 0);
     ("w22", 0);
     ("w23", 0);
     ("w24", 0);
     ("w25", 0);
     ("w26", 0);
     ("w27", 0);
     ("w28", 0);
     ("w29", 0);
     ("w30", 0)].

Definition tied_cols : list string := map fst tied_rows.
Definition tied_coef : list float := map snd tied_rows.

(** Three features with distinct weights. *)
Definition toy_cols : list string := ["airframe"; "radar"; "make_Dix"].
Definition toy_coef : list float := [1; 3; 2].

(** Four training reports and two test reports over three columns. *)
Definition toy_train : frame Z float :=
  Frame [0; 1; 2; 3]%Z
        [("airframe", [0.5; 0; 0.25; 0]);
         ("radar", [0; 0; 0.75; 0]);
         ("make_Dix", [1; 0; 0; 1])].

Definition toy_test : frame Z float :=
  Frame [4; 5]%Z
        [("airframe", [0; 0.5]); ("radar", [0.25; 0]); ("make_Dix", [0; 0])].

Definition toy_test_labels : frame Z pyobj :=
  Frame [4; 5]%Z [("cm_highestinjury", [PyStr "Minor"; PyStr "Fatal"])].

Definition toy_files : pickles :=
  MkPickles toy_train toy_test toy_labels toy_test_labels.

(** The sparse forms of the two toy feature frames and the binarized toy
    labels. *)
Definition toy_X_train : coo_matrix :=
  MkCoo (4, 3)%nat [0; 2; 2; 0; 3]%nat [0; 0; 1; 2; 2]%nat [0.5; 0.25; 0.75; 1; 1].
Definition toy_y_train : list Z := [1; 0; 1; 0]%Z.
Definition toy_X_test : coo_matrix :=
  MkCoo (2, 3)%nat [1; 0]%nat [0; 1]%nat [0.5; 0.25].
Definition toy_y_test : list Z := [0; 1]%Z.

(** A stand-in classifier for running the cells: fixed weights, every
    report predicted non-fatal, one fold. *)
Definition toy_fit (p : params) (X : coo_matrix) (y : list Z)
  : result (list float) :=
  Ok [1; 3; 2].
Definition toy_predict (e : list float) (X : coo_matrix) : result (list Z) :=
  Ok (replicate (fst (shape X)) 0%Z).
Definition toy_coef_ (e : list float) : list float := e.
Definition toy_kfold (k : nat) (X : coo_matrix) (y : list Z)
  : result (list cv_split) :=
  Ok [((X, y), (X, y))].

End Samples.

(* ===================================================================== *)
(** * Notions used in the proofs                                        *)
(* ===================================================================== *)

Section ProofNotions.
Import Sparsifier Notebook.
Local Open Scope float_scope.

(** Association-list view of the count table. *)
Fixpoint assoc (k : Z) (tbl : list (Z * nat)) : option nat :=
  match tbl with
  | [] => None
  | (k', c) :: rest => if Z.eqb k' k then Some c else assoc k rest
  end.

Definition table_total (tbl : list (Z * nat)) : nat :=
  fold_right (fun e acc => (snd e + acc)%nat) 0%nat tbl.

(** No key occurs twice in a count table. *)
Fixpoint distinct_keys (tbl : list (Z * nat)) : Prop :=
  match tbl with
  | [] => True
  | e :: rest => assoc (fst e) rest = None /\ distinct_keys rest
  end.

(** The stored triples [(row, column, value)] of a column and of a run of
    columns numbered from [j]. *)
Definition col_triples (j : nat) (k : nat) (a : list float)
  : list (nat * nat * float) :=
  map (fun e => (fst e, j, snd e)) (sparse_entries 0 k a).

Fixpoint all_triples (j : nat) (cols : list (string * list float))
  : list (nat * nat * float) :=
  match cols with
  | [] => []
  | c :: rest => (col_triples j 0 (snd c) ++ all_triples (S j) rest)%list
  end.

Definition t_row (t : nat * nat * float) : nat := fst (fst t).
Definition t_col (t : nat * nat * float) : nat := snd (fst t).
Definition t_val (t : nat * nat * float) : float := snd t.

Definition add_triple (B : list (list float)) (t : nat * nat * float)
  : list (list float) :=
  add_at B (t_row t) (t_col t) (t_val t).

(** Reading one cell of a two-dimensional array. *)
Definition get2 (B : list (list float)) (i j : nat) : option float :=
  match B !! i with
  | Some row => row !! j
  | None => None
  end.

Definition hits (i j : nat) (t : nat * nat * float) : bool :=
  Nat.eqb (t_row t) i && Nat.eqb (t_col t) j.

(** What the triples of [T] add, in order, to the cell [(i, j)]. *)
Definition cell_acc (T : list (nat * nat * float)) (i j : nat) (x : float) : float :=
  fold_left (fun acc t => if hits i j t then acc + t_val t else acc) T x.

Definition add_if_kept (x : float) (cell : option float) : float :=
  match cell with
  | Some y => if kept 0 y then x + y else x
  | None => x
  end.

(** Arrays of [r] rows of [c] cells. *)
Definition dims (r c : nat) (B : list (list float)) : Prop :=
  length B = r /\ Forall (fun row => length row = c) B.

End ProofNotions.

Section StoreInvariant.
Import Notebook.
Variable Estimator : Type.
Variable files : pickles.

(** The two dense frames sit where the load put them, holding what was
    loaded, and no other variable names their locations. *)
Definition dense_intact (s : Notebook.store Estimator) : Prop :=
  env _ s !! "X_train_tfidf" = Some 0%nat /\
  env _ s !! "X_test_tfidf" = Some 1%nat /\
  heap _ s !! 0%nat = Some (ODense _ (train files)) /\
  heap _ s !! 1%nat = Some (ODense _ (test files)) /\
  (2 <= next _ s)%nat /\
  (forall x l, env _ s !! x = Some l ->
               x <> "X_train_tfidf" -> x <> "X_test_tfidf" -> (2 <= l)%nat).

Definition intact_step
  (c : Notebook.store Estimator -> outcome (Notebook.store Estimator * list output))
  : Prop :=
  forall s s' out, c s = Ok (s', out) -> dense_intact s -> dense_intact s'.

End StoreInvariant.

(* ===================================================================== *)
(** * Notions for the properties of the cells beyond the main results     *)
(* ===================================================================== *)

Section CellNotions.
Import Sparsifier Binarizer Baseline Selector Inspector Notebook.
Local Open Scope float_scope.

(** Every two elements of a list, the earlier one first, are related. *)
Fixpoint pairwise {A : Type} (R : A -> A -> Prop) (l : list A) : Prop :=
  match l with
  | [] => True
  | x :: rest => List.Forall (R x) rest /\ pairwise R rest
  end.

(** The number of cells of a frame that differ from zero. *)
Definition nnz {I : Type} (X : frame I float) : nat :=
  fold_right (fun c acc => (count_if (fun x => negb (PrimFloat.eqb x 0)) (snd c) + acc)%nat)
             0%nat (columns X).

(** Column-major order of stored triples: by column, then by row. *)
Definition coord_lt (a b : nat * nat * float) : Prop :=
  (t_col a < t_col b)%nat \/ (t_col a = t_col b /\ (t_row a < t_row b)%nat).

(** Rows of a count table in descending order of count. *)
Definition by_count_desc (a b : Z * nat) : Prop := (snd b <= snd a)%nat.

(** Two weights are different numbers. *)
Definition differ (a b : float) : Prop := PrimFloat.eqb a b = false.

End CellNotions.

Section NumberNotions.

(** A [float64], seen through its specification, that is a number not
    below zero: a zero, a positive finite number or the positive
    infinity; and one that is a positive finite number. *)
Definition SFnonneg (x : spec_float) : Prop :=
  match x with
  | S754_zero _ => True
  | S754_infinity s | S754_finite s _ _ => s = false
  | S754_nan => False
  end.

Definition SFpositive (x : spec_float) : Prop :=
  match x with
  | S754_finite false _ _ => True
  | _ => False
  end.

End NumberNotions.

Section SearchNotions.
Import Sparsifier Baseline Selector.
Local Open Scope float_scope.

Variable Estimator : Type.
Variable fit : params -> coo_matrix -> list Z -> result Estimator.
Variable predict : Estimator -> coo_matrix -> result (list Z).

(** Modelled from the spec: an accuracy, "comparing predictions to ...
    labels": the number of rows at which the label and the prediction are
    the same, over the number of rows. *)
Definition share_right (y_true y_pred : list Z) : float :=
  PrimFloat.div
    (float_of_nat (length (List.filter (fun lp => Z.eqb (fst lp) (snd lp))
                                       (combine y_true y_pred))))
    (float_of_nat (length y_true)).

(** Modelled from the spec: the cross-validated score of one
    configuration on one split: the configuration is fitted on the
    training part, the fitted model predicts a label for every row of the
    validation part, and the score is the share of these rows predicted
    right. *)
Definition scored_on (p : params) (sp : cv_split) (v : float) : Prop :=
  exists e y_pred,
    fit p (fst (fst sp)) (snd (fst sp)) = Ok e /\
    predict e (fst (snd sp)) = Ok y_pred /\
    length y_pred = length (snd (snd sp)) /\
    v = share_right (snd (snd sp)) y_pred.

End SearchNotions.

Section RunNotions.
Import Sparsifier Binarizer Baseline Selector Inspector Notebook.
Variable Estimator : Type.
Variable fit : params -> coo_matrix -> list Z -> result Estimator.
Variable predict : Estimator -> coo_matrix -> result (list Z).
Variable coef_ : Estimator -> list float.
Variable kfold : nat -> coo_matrix -> list Z -> result (list cv_split).

(** Every location a variable names has been allocated. *)
Definition store_ok (s : Notebook.store Estimator) : Prop :=
  forall x l, env _ s !! x = Some l -> (l < next _ s)%nat.

(** The notebook as one function of its four inputs: the calls of the
    cells in their order, each on the values the earlier calls returned,
    with the bindings the cells leave behind and the lines they print. *)
Definition pipeline (files : pickles)
  : outcome (Notebook.store Estimator * list output) :=
  let s0 := cell_load _ files (empty_store _) in
  let* X_train_sparse := sparsify (train files) in
  let* X_test_sparse := sparsify (test files) in
  let s1 := new _ "X_test_sparse" (OCoo _ X_test_sparse)
              (new _ "X_train_sparse" (OCoo _ X_train_sparse) s0) in
  let* y_train := binarize (train_severity files) in
  let* y_test := binarize (test_severity files) in
  let s2 := new _ "y_test" (OSeries _ y_test)
              (new _ "y_train" (OSeries _ y_train) s1) in
  let* baseline := baseline_accuracy y_test in
  let s3 := new _ "logreg_params" (OParams _ logreg_params) s2 in
  let* logreg_grid := grid_fit _ fit predict kfold logreg_params
                               X_train_sparse (s_values y_train) in
  let s4 := new _ "logreg_grid" (OGrid _ logreg_grid) s3 in
  let* train_accuracy :=
    grid_score _ predict logreg_grid X_train_sparse (s_values y_train) in
  let* test_accuracy :=
    grid_score _ predict logreg_grid X_test_sparse (s_values y_test) in
  let* df0 := make_weight_frame (coef_ (best_estimator_ _ logreg_grid))
                                (labels (train files)) in
  let* df := set_columns df0 ["Weight"] in
  Ok (update _ (next _ s4) (OWeights _ df)
        (new _ "parameter_weight_df" (OWeights _ df0) s4),
      [Print "The baseline accuracy is" baseline;
       Print "Training accuracy:" train_accuracy;
       Print "Testing accuracy:" test_accuracy]).

End RunNotions.

(* ===================================================================== *)
(** * The order of [float64]                                              *)
(* ===================================================================== *)

Section FloatOrder.
Local Open Scope float_scope.

Ltac cmp_cases :=
  repeat match goal with
  | H : context [Pos.compare_cont Eq ?a ?b] |- _ =>
      change (Pos.compare_cont Eq a b) with (Pos.compare a b) in H
  | |- context [Pos.compare_cont Eq ?a ?b] =>
      change (Pos.compare_cont Eq a b) with (Pos.compare a b)
  end;
  repeat match goal with
  | H : context [Z.compare ?a ?b] |- _ => destruct (Z.compare_spec a b); simpl in H
  | |- context [Z.compare ?a ?b] => destruct (Z.compare_spec a b); simpl
  | H : context [Pos.compare ?a ?b] |- _ => destruct (Pos.compare_spec a b); simpl in H
  | |- context [Pos.compare ?a ?b] => destruct (Pos.compare_spec a b); simpl
  end;
  subst; try discriminate; try reflexivity; try lia.

Lemma SFleb_trans a b c :
  SFleb a b = true -> SFleb b c = true -> SFleb a c = true.
Proof.
  unfold SFleb.
  destruct a as [[|]|[|]| |[|] ma ea], b as [[|]|[|]| |[|] mb eb],
           c as [[|]|[|]| |[|] mc ec]; simpl; intros H1 H2;
    try discriminate; try reflexivity; cmp_cases.
Qed.

Lemma SFltb_trans a b c :
  SFltb a b = true -> SFltb b c = true -> SFltb a c = true.
Proof.
  unfold SFltb.
  destruct a as [[|]|[|]| |[|] ma ea], b as [[|]|[|]| |[|] mb eb],
           c as [[|]|[|]| |[|] mc ec]; simpl; intros H1 H2;
    try discriminate; try reflexivity; cmp_cases.
Qed.

Lemma SFleb_total a b :
  a <> S754_nan -> b <> S754_nan -> SFleb a b = true \/ SFleb b a = true.
Proof.
  unfold SFleb.
  destruct a as [[|]|[|]| |[|] ma ea], b as [[|]|[|]| |[|] mb eb];
    simpl; intros H1 H2; try congruence; auto; cmp_cases; auto.
Qed.

Lemma SFltb_irrefl a : SFltb a a = false.
Proof.
  unfold SFltb. destruct a as [[|]|[|]| |[|] ma ea]; simpl;
    try reflexivity; cmp_cases.
Qed.

Lemma not_nan_spec (x : float) :
  PrimFloat.is_nan x = false -> Prim2SF x <> S754_nan.
Proof.
  unfold PrimFloat.is_nan. rewrite FloatAxioms.eqb_spec.
  intros H E. rewrite E in H. discriminate.
Qed.

(** [<=] on [float64] is transitive, and total on the numbers. *)
Lemma leb_trans (x y z : float) :
  PrimFloat.leb x y = true -> PrimFloat.leb y z = true ->
  PrimFloat.leb x z = true.
Proof. rewrite !FloatAxioms.leb_spec. apply SFleb_trans. Qed.

Lemma leb_total (x y : float) :
  PrimFloat.is_nan x = false -> PrimFloat.is_nan y = false ->
  PrimFloat.leb x y = true \/ PrimFloat.leb y x = true.
Proof.
  intros Hx Hy. rewrite !FloatAxioms.leb_spec.
  apply SFleb_total; now apply not_nan_spec.
Qed.

(** [<] on [float64] is a strict order. *)
Lemma ltb_trans (x y z : float) :
  PrimFloat.ltb x y = true -> PrimFloat.ltb y z = true ->
  PrimFloat.ltb x z = true.
Proof. rewrite !FloatAxioms.ltb_spec. apply SFltb_trans. Qed.

Lemma ltb_irrefl (x : float) : PrimFloat.ltb x x = false.
Proof. rewrite FloatAxioms.ltb_spec. apply SFltb_irrefl. Qed.

Lemma SFnot_ltb_leb a b :
  a <> S754_nan -> b <> S754_nan -> SFltb a b = false -> SFleb b a = true.
Proof.
  unfold SFltb, SFleb.
  destruct a as [[|]|[|]| |[|] ma ea], b as [[|]|[|]| |[|] mb eb];
    simpl; intros H1 H2 H3; try congruence; cmp_cases.
Qed.

Lemma SFleb_ltb_trans a b c :
  SFleb a b = true -> SFltb b c = true -> SFltb a c = true.
Proof.
  unfold SFleb, SFltb.
  destruct a as [[|]|[|]| |[|] ma ea], b as [[|]|[|]| |[|] mb eb],
           c as [[|]|[|]| |[|] mc ec]; simpl; intros H1 H2;
    try discriminate; try reflexivity; cmp_cases.
Qed.

(** Of two numbers, the one that is not below the other is at least it. *)
Lemma not_ltb_leb (x y : float) :
  PrimFloat.is_nan x = false -> PrimFloat.is_nan y = false ->
  PrimFloat.ltb x y = false -> PrimFloat.leb y x = true.
Proof.
  intros Hx Hy. rewrite FloatAxioms.ltb_spec, FloatAxioms.leb_spec.
  apply SFnot_ltb_leb; now apply not_nan_spec.
Qed.

Lemma leb_ltb_trans (x y z : float) :
  PrimFloat.leb x y = true -> PrimFloat.ltb y z = true ->
  PrimFloat.ltb x z = true.
Proof.
  rewrite FloatAxioms.leb_spec, !FloatAxioms.ltb_spec. apply SFleb_ltb_trans.
Qed.

Lemma ltb_asym (x y : float) :
  PrimFloat.ltb x y = true -> PrimFloat.ltb y x = false.
Proof.
  intros H. destruct (PrimFloat.ltb y x) eqn:E; [|reflexivity].
  rewrite <- (ltb_irrefl x). symmetry. eapply ltb_trans; eauto.
Qed.

End FloatOrder.

(* ===================================================================== *)
(** * Counts and their quotients are numbers                              *)
(* ===================================================================== *)

Section FloatNumbers.
Local Open Scope Z_scope.

Lemma shr_1_nonneg mrs : 0 <= shr_m mrs -> 0 <= shr_m (shr_1 mrs).
Proof.
  destruct mrs as [m r s]. simpl. destruct m as [|[p|p|]|[p|p|]]; simpl; lia.
Qed.

Lemma iter_shr_1_nonneg p : forall mrs,
  0 <= shr_m mrs -> 0 <= shr_m (SpecFloat.iter_pos shr_1 p mrs).
Proof.
  induction p as [p IH|p IH|]; intros mrs H; simpl.
  - apply IH, IH. now apply shr_1_nonneg.
  - now apply IH, IH.
  - now apply shr_1_nonneg.
Qed.

Lemma shr_record_of_loc_m m l : shr_m (shr_record_of_loc m l) = m.
Proof. destruct l as [|[| |]]; reflexivity. Qed.

Lemma shr_fexp_nonneg m e l :
  0 <= m -> 0 <= shr_m (fst (shr_fexp prec emax m e l)).
Proof.
  intros H. unfold shr_fexp, shr.
  destruct (fexp prec emax (Zdigits2 m + e) - e) as [|p|p]; simpl;
    rewrite ?shr_record_of_loc_m; try exact H.
  apply iter_shr_1_nonneg. now rewrite shr_record_of_loc_m.
Qed.

Lemma round_nearest_even_nonneg m l : 0 <= m -> 0 <= round_nearest_even m l.
Proof.
  intros H. destruct l as [|[| |]]; simpl; try lia. destruct (Z.even m); lia.
Qed.

Lemma binary_round_aux_class (s : bool) m e l :
  0 <= m ->
  match binary_round_aux prec emax s m e l with
  | S754_zero s' | S754_infinity s' | S754_finite s' _ _ => s' = s
  | S754_nan => False
  end.
Proof.
  intros H. unfold binary_round_aux.
  pose proof (shr_fexp_nonneg m e l H) as H1.
  destruct (shr_fexp prec emax m e l) as [mrs' e']. simpl in H1.
  pose proof (shr_fexp_nonneg _ e' loc_Exact
                (round_nearest_even_nonneg _ (loc_of_shr_record mrs') H1)) as H2.
  destruct (shr_fexp prec emax (round_nearest_even (shr_m mrs') (loc_of_shr_record mrs'))
                     e' loc_Exact) as [mrs'' e'']. simpl in H2.
  destruct (shr_m mrs'') as [|p|p]; [reflexivity| |lia].
  destruct (e'' <=? emax - prec); reflexivity.
Qed.

Lemma binary_round_aux_nonneg m e l :
  0 <= m -> SFnonneg (binary_round_aux prec emax false m e l).
Proof.
  intros H. pose proof (binary_round_aux_class false m e l H) as Hc.
  destruct (binary_round_aux prec emax false m e l); simpl; auto.
Qed.

Lemma binary_round_nonneg m e : SFnonneg (binary_round prec emax false m e).
Proof.
  unfold binary_round.
  destruct (shl_align m e (fexp prec emax (Z.pos (digits2_pos m) + e))) as [mz ez].
  apply binary_round_aux_nonneg. lia.
Qed.

Lemma SFadd_nonneg x y :
  SFnonneg x -> SFnonneg y -> SFnonneg (SFadd prec emax x y).
Proof.
  destruct x as [sx|sx| |sx mx ex], y as [sy|sy| |sy my ey]; simpl;
    try contradiction; try tauto.
  - destruct sx, sy; simpl; auto.
  - intros -> ->. reflexivity.
  - intros -> ->. unfold binary_normalize. simpl.
    apply binary_round_nonneg.
Qed.

Lemma SFdiv_nonneg x y :
  SFnonneg x -> SFpositive y -> SFnonneg (SFdiv prec emax x y).
Proof.
  destruct x as [sx|sx| |sx mx ex], y as [sy|sy| |[|] my ey]; simpl;
    try contradiction; try tauto.
  - intros ->. reflexivity.
  - intros -> _. unfold SFdiv_core_binary.
    set (m' := match _ - _ - _ with Z0 => _ | Z.pos _ => _ | Z.neg _ => _ end).
    assert (Hm : 0 <= m').
    { unfold m'. destruct (_ - _ - _); try lia. apply Z.shiftl_nonneg. lia. }
    pose proof (Z.div_pos m' (Z.pos my) Hm ltac:(lia)) as Hq.
    unfold Z.div in Hq.
    destruct (Z.div_eucl m' (Z.pos my)) as [q r].
    now apply binary_round_aux_nonneg.
Qed.

Lemma digits2_pos_size p : digits2_pos p = Pos.size p.
Proof. induction p; simpl; congruence. Qed.

Lemma digits2_pos_iter_xO p k :
  digits2_pos (Pos.iter xO p k) = (digits2_pos p + k)%positive.
Proof.
  induction k as [|k IH] using Pos.peano_ind.
  - simpl. lia.
  - rewrite Pos.iter_succ. simpl. rewrite IH. lia.
Qed.

Lemma digits2_pos_le p : Z.pos p < 2 ^ 53 -> Z.pos (digits2_pos p) <= 53.
Proof.
  intros H. rewrite digits2_pos_size.
  destruct (Z_le_gt_dec (Z.pos (Pos.size p)) 53) as [Hle|Hgt]; [exact Hle|exfalso].
  pose proof (Pos.size_le p) as Hs.
  assert (H1 : 2 ^ 54 <= 2 ^ Z.pos (Pos.size p)) by (apply Z.pow_le_mono_r; lia).
  assert (H2 : 2 ^ Z.pos (Pos.size p) <= Z.pos p~0).
  { rewrite <- Pos2Z.inj_pow. apply Pos2Z.pos_le_pos. exact Hs. }
  change (2 ^ 54) with (2 * 2 ^ 53) in H1. lia.
Qed.

Lemma binary_round_aux_canonical m e :
  Z.pos (digits2_pos m) = 53 -> -52 <= e <= 0 ->
  binary_round_aux prec emax false (Z.pos m) e loc_Exact = S754_finite false m e.
Proof.
  intros Hd He. unfold binary_round_aux, shr_fexp, Zdigits2.
  rewrite Hd.
  assert (Hf : fexp prec emax (53 + e) - e = 0).
  { unfold fexp, SpecFloat.emin, prec, emax. lia. }
  rewrite Hf. simpl shr. cbn [shr_m loc_of_shr_record round_nearest_even
                              shr_record_of_loc shr Zdigits2].
  rewrite Hd, Hf. cbn [shr shr_m shr_record_of_loc].
  replace (e <=? emax - prec) with true; [reflexivity|].
  symmetry. apply Z.leb_le. unfold emax, prec. lia.
Qed.

Lemma binary_round_positive p :
  Z.pos p < 2 ^ 53 -> SFpositive (binary_round prec emax false p 0).
Proof.
  intros H. pose proof (digits2_pos_le p H) as Hd.
  unfold binary_round, shl_align.
  assert (Hf : fexp prec emax (Z.pos (digits2_pos p) + 0) = Z.pos (digits2_pos p) - 53).
  { unfold fexp, SpecFloat.emin, prec, emax. lia. }
  rewrite Hf.
  destruct (Z.pos (digits2_pos p) - 53 - 0) as [|k|k] eqn:Ek; try lia.
  - rewrite binary_round_aux_canonical; [exact I | lia | lia].
  - rewrite binary_round_aux_canonical; [exact I | | lia].
    rewrite digits2_pos_iter_xO. lia.
Qed.

Lemma float_of_nat_positive (n : nat) :
  (0 < n)%nat -> Z.of_nat n < 2 ^ 53 ->
  SFpositive (Prim2SF (Baseline.float_of_nat n)).
Proof.
  intros Hn Hb. unfold Baseline.float_of_nat. rewrite FloatAxioms.of_uint63_spec, of_Z_spec.
  rewrite Z.mod_small by (change wB with (2 ^ 63); split; [lia|];
                          eapply Z.lt_trans; [exact Hb|reflexivity]).
  destruct (Z.of_nat n) as [|p|p] eqn:E; try lia.
  simpl. now apply binary_round_positive.
Qed.

Lemma float_of_nat_nonneg (n : nat) :
  Z.of_nat n < 2 ^ 53 -> SFnonneg (Prim2SF (Baseline.float_of_nat n)).
Proof.
  intros Hb. destruct n as [|n].
  - vm_compute. exact I.
  - pose proof (float_of_nat_positive (S n) ltac:(lia) Hb) as H.
    destruct (Prim2SF (Baseline.float_of_nat (S n))) as [| | |[|] m e]; simpl in *;
      try contradiction; reflexivity.
Qed.

Lemma nonneg_not_nan (x : float) :
  SFnonneg (Prim2SF x) -> PrimFloat.is_nan x = false.
Proof.
  intros H. destruct (PrimFloat.is_nan x) eqn:E; [|reflexivity].
  unfold Prim2SF in H. rewrite E in H. contradiction.
Qed.

(** The sum of numbers not below zero, and its quotient by a count, is a
    number not below zero. *)
Lemma add_nonneg (x y : float) :
  SFnonneg (Prim2SF x) -> SFnonneg (Prim2SF y) ->
  SFnonneg (Prim2SF (PrimFloat.add x y)).
Proof. rewrite FloatAxioms.add_spec. apply SFadd_nonneg. Qed.

Lemma div_nonneg (x y : float) :
  SFnonneg (Prim2SF x) -> SFpositive (Prim2SF y) ->
  SFnonneg (Prim2SF (PrimFloat.div x y)).
Proof. rewrite FloatAxioms.div_spec. apply SFdiv_nonneg. Qed.

Lemma sum_nonneg (l : list float) (acc : float) :
  SFnonneg (Prim2SF acc) ->
  List.Forall (fun x => SFnonneg (Prim2SF x)) l ->
  SFnonneg (Prim2SF (fold_left PrimFloat.add l acc)).
Proof.
  revert acc. induction l as [|x l IH]; intros acc Ha Hl; simpl; [exact Ha|].
  inversion Hl; subst. apply IH; [|assumption]. now apply add_nonneg.
Qed.

End FloatNumbers.

(* ===================================================================== *)
(** * Facts about the binarizer                                           *)
(* ===================================================================== *)

Section BinarizerFacts.
Import Binarizer.
Context {I : Type}.

Lemma find_column_map {A B : Type} (f : A -> B) name (cols : list (string * list A)) :
  find_column name (map (fun c => (fst c, map f (snd c))) cols) =
  option_map (map f) (find_column name cols).
Proof.
  induction cols as [|[l c] rest IH]; simpl; [reflexivity|].
  destruct (String.eqb l name); [reflexivity | exact IH].
Qed.

Lemma column_frame_map {A B : Type} (f : A -> B) (df : frame I A) name :
  column (frame_map f df) name = option_map (map f) (column df name).
Proof. unfold column, frame_map; simpl. apply find_column_map. Qed.

Lemma is_fatal_iff (v : pyobj) : is_fatal v = true <-> v = PyStr "Fatal".
Proof.
  unfold is_fatal, py_eq_str. destruct v as [t| | |]; split; intros H;
    try discriminate.
  - apply String.eqb_eq in H. now subst.
  - injection H as ->. apply String.eqb_refl.
Qed.

(** The binarizer's value: the row labels of the input and, per row, the
    indicator of the comparison. *)
Lemma binarize_column (y : frame I pyobj) (col : list pyobj) :
  column y "cm_highestinjury" = Some col ->
  binarize y = Ok (Series (index y) (map (fun v => Z.b2z (is_fatal v)) col)).
Proof.
  intros Hc. unfold binarize, getattr, astype_int, frame_eq_str.
  rewrite !column_frame_map, Hc. simpl. now rewrite map_map.
Qed.

Lemma binarize_no_column (y : frame I pyobj) :
  column y "cm_highestinjury" = None ->
  binarize y = Raise AttributeError.
Proof.
  intros Hc. unfold binarize, getattr, astype_int, frame_eq_str.
  now rewrite !column_frame_map, Hc.
Qed.

Lemma count_if_map {A B : Type} (f : A -> B) (p : B -> bool) (l : list A) :
  count_if p (map f l) = count_if (fun x => p (f x)) l.
Proof.
  induction l as [|x l IH]; simpl; [reflexivity|]. now rewrite IH.
Qed.

Lemma count_if_ext {A : Type} (p q : A -> bool) (l : list A) :
  (forall x, p x = q x) -> count_if p l = count_if q l.
Proof.
  intros E. induction l as [|x l IH]; simpl; [reflexivity|].
  now rewrite E, IH.
Qed.

Lemma count_if_none {A : Type} (p : A -> bool) (l : list A) :
  Forall (fun x => p x = false) l -> count_if p l = 0%nat.
Proof.
  induction 1 as [|x l Hx _ IH]; simpl; [reflexivity|]. now rewrite Hx.
Qed.

End BinarizerFacts.

(* ===================================================================== *)
(** * Facts about the baseline estimator                                  *)
(* ===================================================================== *)

Section BaselineFacts.
Import Baseline.

Lemma assoc_bump_same v tbl :
  assoc v (bump v tbl) = Some (S (default 0%nat (assoc v tbl))).
Proof.
  induction tbl as [|[k c] rest IH]; simpl.
  - now rewrite Z.eqb_refl.
  - destruct (Z.eqb k v) eqn:E; simpl; rewrite E; [reflexivity | exact IH].
Qed.

Lemma assoc_bump_other v k tbl :
  v <> k -> assoc k (bump v tbl) = assoc k tbl.
Proof.
  intros Hne. induction tbl as [|[k' c] rest IH]; simpl.
  - destruct (Z.eqb v k) eqn:E; [apply Z.eqb_eq in E; contradiction | reflexivity].
  - destruct (Z.eqb k' v) eqn:E; simpl.
    + apply Z.eqb_eq in E. subst k'.
      destruct (Z.eqb v k) eqn:E'; [apply Z.eqb_eq in E'; contradiction | reflexivity].
    + now rewrite IH.
Qed.

Lemma table_total_bump v tbl : table_total (bump v tbl) = S (table_total tbl).
Proof.
  induction tbl as [|[k c] rest IH]; simpl; [reflexivity|].
  destruct (Z.eqb k v); simpl; [reflexivity|]. rewrite IH. lia.
Qed.

(** Folding [bump] over the values adds, per key, its number of
    occurrences. *)
Lemma assoc_fold_bump k vals tbl :
  default 0%nat (assoc k (fold_left (fun t v => bump v t) vals tbl)) =
  (default 0%nat (assoc k tbl) + count_if (Z.eqb k) vals)%nat.
Proof.
  revert tbl. induction vals as [|v vals IH]; intros tbl; simpl; [lia|].
  rewrite IH. destruct (Z.eqb k v) eqn:E.
  - apply Z.eqb_eq in E. subst v. rewrite assoc_bump_same. simpl. lia.
  - rewrite assoc_bump_other; [lia|]. intros ->. now rewrite Z.eqb_refl in E.
Qed.

Lemma assoc_bump_some k v tbl :
  assoc k tbl <> None -> assoc k (bump v tbl) <> None.
Proof.
  intros H. destruct (Z.eq_dec v k) as [->|Hne].
  - now rewrite assoc_bump_same.
  - now rewrite assoc_bump_other.
Qed.

Lemma assoc_fold_bump_some k vals tbl :
  assoc k tbl <> None ->
  assoc k (fold_left (fun t v => bump v t) vals tbl) <> None.
Proof.
  revert tbl. induction vals as [|v vals IH]; intros tbl H; simpl; [exact H|].
  apply IH. now apply assoc_bump_some.
Qed.

Lemma assoc_fold_bump_none k vals tbl :
  assoc k tbl = None -> count_if (Z.eqb k) vals = 0%nat ->
  assoc k (fold_left (fun t v => bump v t) vals tbl) = None.
Proof.
  revert tbl. induction vals as [|v vals IH]; intros tbl H Hc; simpl; [exact H|].
  simpl in Hc. destruct (Z.eqb k v) eqn:E; [discriminate|].
  apply IH; [|exact Hc]. rewrite assoc_bump_other; [exact H|].
  intros ->. now rewrite Z.eqb_refl in E.
Qed.

(** The count table holds exactly the values that occur, each with its
    number of occurrences. *)
Lemma assoc_value_counts k vals :
  assoc k (value_counts_arraylike vals) =
  if Nat.eqb (count_if (Z.eqb k) vals) 0 then None
  else Some (count_if (Z.eqb k) vals).
Proof.
  unfold value_counts_arraylike.
  destruct (Nat.eqb (count_if (Z.eqb k) vals) 0) eqn:E.
  - apply Nat.eqb_eq in E. now apply assoc_fold_bump_none.
  - apply Nat.eqb_neq in E.
    pose proof (assoc_fold_bump k vals []) as H. simpl in H.
    destruct (assoc k (fold_left _ vals [])) as [c|] eqn:Ha; simpl in H.
    + now subst c.
    + congruence.
Qed.

Lemma table_total_fold_bump vals tbl :
  table_total (fold_left (fun t v => bump v t) vals tbl) =
  (table_total tbl + length vals)%nat.
Proof.
  revert tbl. induction vals as [|v vals IH]; intros tbl; simpl; [lia|].
  rewrite IH, table_total_bump. lia.
Qed.

Lemma table_total_value_counts vals :
  table_total (value_counts_arraylike vals) = length vals.
Proof. unfold value_counts_arraylike. now rewrite table_total_fold_bump. Qed.

Lemma distinct_keys_bump v tbl : distinct_keys tbl -> distinct_keys (bump v tbl).
Proof.
  induction tbl as [|[k c] rest IH]; simpl; [auto|].
  intros [Hk Hr]. destruct (Z.eqb k v) eqn:E; simpl.
  - auto.
  - split; [|auto]. rewrite assoc_bump_other; [exact Hk|].
    intros ->. now rewrite Z.eqb_refl in E.
Qed.

Lemma distinct_keys_value_counts vals :
  distinct_keys (value_counts_arraylike vals).
Proof.
  unfold value_counts_arraylike.
  assert (G : forall tbl, distinct_keys tbl ->
            distinct_keys (fold_left (fun t v => bump v t) vals tbl)).
  { induction vals as [|v vals IH]; intros tbl H; simpl; [exact H|].
    apply IH. now apply distinct_keys_bump. }
  apply G. exact Logic.I.
Qed.

Lemma assoc_insert_by_count k e tbl :
  assoc (fst e) tbl = None ->
  assoc k (insert_by_count e tbl) =
  if Z.eqb (fst e) k then Some (snd e) else assoc k tbl.
Proof.
  destruct e as [ke ce]. simpl.
  induction tbl as [|[k' c'] rest IH]; simpl; intros Hn; [reflexivity|].
  destruct (Z.eqb k' ke) eqn:E; [discriminate|].
  destruct (Nat.leb c' ce); simpl; [reflexivity|].
  rewrite (IH Hn).
  destruct (Z.eqb k' k) eqn:E1; [|reflexivity].
  destruct (Z.eqb ke k) eqn:E2; [|reflexivity].
  apply Z.eqb_eq in E1, E2. subst. now rewrite Z.eqb_refl in E.
Qed.

(** Reordering the table by count changes no lookup by key. *)
Lemma assoc_sort_by_count k tbl :
  distinct_keys tbl -> assoc k (sort_by_count tbl) = assoc k tbl.
Proof.
  revert k. induction tbl as [|[ke ce] rest IH]; intros k; simpl; [reflexivity|].
  intros [Hn Hr]. rewrite assoc_insert_by_count.
  - simpl. now rewrite (IH k Hr).
  - simpl. now rewrite (IH ke Hr).
Qed.

Lemma table_total_insert e tbl :
  table_total (insert_by_count e tbl) = (snd e + table_total tbl)%nat.
Proof.
  induction tbl as [|x rest IH]; simpl; [reflexivity|].
  destruct (Nat.leb (snd x) (snd e)); simpl; [reflexivity|]. rewrite IH. lia.
Qed.

Lemma table_total_sort tbl : table_total (sort_by_count tbl) = table_total tbl.
Proof.
  induction tbl as [|e rest IH]; simpl; [reflexivity|].
  now rewrite table_total_insert, IH.
Qed.

Lemma lookup_label_table {A : Type} (g : nat -> A) k tbl :
  lookup_label k (map fst tbl) (map (fun e => g (snd e)) tbl) =
  option_map g (assoc k tbl).
Proof.
  induction tbl as [|[k' c] rest IH]; simpl; [reflexivity|].
  destruct (Z.eqb k' k); [reflexivity | exact IH].
Qed.

(** What [s.value_counts(normalize=True)[k]] is: the share of the rows
    equal to [k] when there is such a row, a KeyError when there is none. *)
Lemma getitem_value_counts {I : Type} (s : series I Z) (k : Z) :
  getitem (value_counts_normalize s) k =
  if Nat.eqb (count_if (Z.eqb k) (s_values s)) 0 then Raise KeyError
  else Ok (proportion (count_if (Z.eqb k) (s_values s)) (length (s_values s))).
Proof.
  unfold getitem, value_counts_normalize. cbv zeta. simpl.
  change (fold_right (fun e acc => (snd e + acc)%nat) 0%nat) with table_total.
  rewrite table_total_sort, table_total_value_counts.
  rewrite (lookup_label_table (fun c => proportion c (length (s_values s)))).
  rewrite assoc_sort_by_count by apply distinct_keys_value_counts.
  rewrite assoc_value_counts.
  now destruct (Nat.eqb (count_if (Z.eqb k) (s_values s)) 0).
Qed.

Lemma count_if_zero_iff {A : Type} (p : A -> bool) (l : list A) :
  count_if p l = 0%nat <-> Forall (fun x => p x = false) l.
Proof.
  induction l as [|x l IH]; simpl.
  - split; auto.
  - destruct (p x) eqn:E; split; intros H.
    + discriminate.
    + inversion H; congruence.
    + constructor; [exact E | now apply IH].
    + inversion H; now apply IH.
Qed.

End BaselineFacts.

(* ===================================================================== *)
(** * Facts about the sparsifier                                          *)
(* ===================================================================== *)

Section SparsifierFacts.
Import Sparsifier.
Local Open Scope float_scope.

(** Adding a cell that is not a zero to the zero of a fresh array gives
    back the cell. *)
Lemma add_zero_l (x : float) : PrimFloat.eqb x 0 = false -> 0 + x = x.
Proof.
  intros H. apply Prim2SF_inj. rewrite FloatAxioms.add_spec.
  rewrite FloatAxioms.eqb_spec in H.
  change (Prim2SF 0) with (S754_zero false) in *.
  destruct (Prim2SF x) as [s|s| |s m e]; simpl in *;
    try reflexivity; discriminate.
Qed.

Lemma kept_zero (x : float) : kept 0 x = negb (PrimFloat.eqb x 0).
Proof. reflexivity. Qed.

Lemma to_coo_columns_triples j (cols : list (string * list float)) :
  to_coo_columns j (map (fun c => (fst c, make_sparse (snd c) 0)) cols) =
  Ok (map t_row (all_triples j cols),
      map t_col (all_triples j cols),
      map t_val (all_triples j cols)).
Proof.
  revert j. induction cols as [|[l a] rest IH]; intros j; simpl; [reflexivity|].
  rewrite IH. simpl. unfold col_triples.
  rewrite !map_app, !map_map. simpl.
  assert (E : replicate (length (map fst (sparse_entries 0 0 a))) j =
              map (fun x : nat * float => t_col (fst x, j, snd x))
                  (sparse_entries 0 0 a)).
  { induction (sparse_entries 0 0 a) as [|e es IHe]; simpl; [reflexivity|].
    now rewrite IHe. }
  now rewrite E.
Qed.

Lemma add_triples_fold (T : list (nat * nat * float)) B :
  add_triples B (map t_row T) (map t_col T) (map t_val T) =
  fold_left add_triple T B.
Proof.
  revert B. induction T as [|t T IH]; intros B; simpl; [reflexivity|].
  now rewrite IH.
Qed.

Lemma get2_add_triple B t i j :
  get2 (add_triple B t) i j =
  if hits i j t then option_map (fun x => x + t_val t) (get2 B i j)
  else get2 B i j.
Proof.
  unfold add_triple, add_at, get2, hits.
  destruct (Nat.eqb (t_row t) i) eqn:Ei; simpl.
  - apply Nat.eqb_eq in Ei. subst i. rewrite list_lookup_alter_eq.
    destruct (B !! t_row t) as [row|]; simpl.
    + destruct (Nat.eqb (t_col t) j) eqn:Ej.
      * apply Nat.eqb_eq in Ej. subst j. rewrite list_lookup_alter_eq.
        now destruct (row !! t_col t).
      * apply Nat.eqb_neq in Ej. now rewrite list_lookup_alter_ne.
    + now destruct (Nat.eqb (t_col t) j).
  - apply Nat.eqb_neq in Ei. now rewrite list_lookup_alter_ne.
Qed.

Lemma cell_acc_app T1 T2 i j x :
  cell_acc (T1 ++ T2) i j x = cell_acc T2 i j (cell_acc T1 i j x).
Proof. unfold cell_acc. apply fold_left_app. Qed.

Lemma get2_fold_add T B i j :
  get2 (fold_left add_triple T B) i j = option_map (cell_acc T i j) (get2 B i j).
Proof.
  revert B. induction T as [|t T IH]; intros B; simpl.
  - now destruct (get2 B i j).
  - rewrite IH, get2_add_triple. unfold cell_acc. simpl.
    destruct (hits i j t); [|reflexivity]. now destruct (get2 B i j).
Qed.

Lemma cell_acc_col_other j' k a i j x :
  j' <> j -> cell_acc (col_triples j' k a) i j x = x.
Proof.
  intros Hne. revert k x. unfold col_triples, cell_acc.
  induction a as [|y rest IH]; intros k x; simpl; [reflexivity|].
  destruct (kept 0 y); simpl; [|apply IH].
  assert (Hh : hits i j (k, j', y) = false).
  { unfold hits, t_row, t_col; simpl. apply andb_false_iff. right. now apply Nat.eqb_neq. }
  rewrite Hh. apply IH.
Qed.

Lemma cell_acc_col_same j k a i x :
  cell_acc (col_triples j k a) i j x =
  if Nat.leb k i then add_if_kept x (a !! (i - k)%nat) else x.
Proof.
  revert k x. unfold col_triples, cell_acc.
  induction a as [|y rest IH]; intros k x; simpl.
  - now destruct (Nat.leb k i).
  - assert (Hrest : forall x',
      fold_left (fun acc t => if hits i j t then acc + t_val t else acc)
        (map (fun e : nat * float => (fst e, j, snd e))
             (sparse_entries 0 (S k) rest)) x' =
      if Nat.leb (S k) i then add_if_kept x' (rest !! (i - S k)%nat) else x')
      by (intros x'; apply IH).
    destruct (Nat.leb k i) eqn:Hki.
    + apply Nat.leb_le in Hki. destruct (Nat.eq_dec k i) as [->|Hne].
      * replace (i - i)%nat with 0%nat by lia. simpl.
        destruct (kept 0 y); simpl.
        -- assert (Hh : hits i j (i, j, y) = true)
             by (unfold hits, t_row, t_col; simpl; now rewrite !Nat.eqb_refl).
           rewrite Hh. change (t_val (i, j, y)) with y.
           rewrite Hrest. destruct (Nat.leb_gt (S i) i) as [_ ->]; [reflexivity|lia].
        -- rewrite Hrest. destruct (Nat.leb_gt (S i) i) as [_ ->]; [reflexivity|lia].
      * destruct (i - k)%nat as [|d] eqn:Hd; [lia|]. simpl.
        assert (Hd' : (i - S k)%nat = d) by lia.
        assert (Hle : Nat.leb (S k) i = true) by (apply Nat.leb_le; lia).
        destruct (kept 0 y); simpl.
        -- assert (Hh : hits i j (k, j, y) = false).
           { unfold hits, t_row, t_col; simpl. apply andb_false_iff. left. now apply Nat.eqb_neq. }
           now rewrite Hh, Hrest, Hle, Hd'.
        -- now rewrite Hrest, Hle, Hd'.
    + apply Nat.leb_gt in Hki.
      assert (Hle : Nat.leb (S k) i = false) by (apply Nat.leb_gt; lia).
      destruct (kept 0 y); simpl.
      * assert (Hh : hits i j (k, j, y) = false).
        { unfold hits, t_row, t_col; simpl. apply andb_false_iff. left. apply Nat.eqb_neq. lia. }
        now rewrite Hh, Hrest, Hle.
      * now rewrite Hrest, Hle.
Qed.

(** The cell [(i, j)] receives the cell of column [j] at row [i] when that
    cell is kept, and nothing else. *)
Lemma cell_acc_all j0 (cols : list (string * list float)) i j x :
  cell_acc (all_triples j0 cols) i j x =
  if Nat.leb j0 j then
    match cols !! (j - j0)%nat with
    | Some c => add_if_kept x (snd c !! i)
    | None => x
    end
  else x.
Proof.
  revert j0 x. induction cols as [|c rest IH]; intros j0 x.
  - unfold cell_acc. simpl. now destruct (Nat.leb j0 j).
  - cbn [all_triples]. rewrite cell_acc_app, IH.
    destruct (Nat.leb j0 j) eqn:Hj.
    + apply Nat.leb_le in Hj. destruct (Nat.eq_dec j0 j) as [->|Hne].
      * assert (Hgt : Nat.leb (S j) j = false) by (apply Nat.leb_gt; lia).
        rewrite Hgt, cell_acc_col_same.
        replace (j - j)%nat with 0%nat by lia. simpl.
        now rewrite Nat.sub_0_r.
      * rewrite cell_acc_col_other by exact Hne.
        assert (Hle : Nat.leb (S j0) j = true) by (apply Nat.leb_le; lia).
        rewrite Hle. destruct (j - j0)%nat as [|d] eqn:Hd; [lia|].
        replace (j - S j0)%nat with d by lia. reflexivity.
    + apply Nat.leb_gt in Hj.
      rewrite cell_acc_col_other by lia.
      assert (Hgt : Nat.leb (S j0) j = false) by (apply Nat.leb_gt; lia).
      now rewrite Hgt.
Qed.

Lemma add_if_kept_zero (y : float) : add_if_kept 0 (Some y) = stored_value y.
Proof.
  unfold add_if_kept, stored_value. rewrite kept_zero.
  destruct (PrimFloat.eqb y 0) eqn:E; simpl; [reflexivity|].
  now apply add_zero_l.
Qed.

Lemma dims_zeros r c : dims r c (zeros r c).
Proof.
  unfold dims, zeros. split; [apply length_replicate|].
  apply Forall_forall. intros row Hin.
  apply elem_of_replicate in Hin. destruct Hin as [-> _].
  apply length_replicate.
Qed.

Lemma dims_add_triple r c B t : dims r c B -> dims r c (add_triple B t).
Proof.
  unfold dims, add_triple, add_at. intros [Hl Hf]. split.
  - now rewrite length_alter.
  - apply Forall_forall. intros row Hin.
    apply list_elem_of_lookup in Hin. destruct Hin as [i Hi].
    destruct (Nat.eq_dec (t_row t) i) as [<-|Hne].
    + rewrite list_lookup_alter_eq in Hi.
      destruct (B !! t_row t) as [row0|] eqn:E; [|discriminate].
      simpl in Hi. injection Hi as <-. rewrite length_alter.
      rewrite Forall_forall in Hf. apply Hf.
      apply list_elem_of_lookup. eauto.
    + rewrite list_lookup_alter_ne in Hi by exact Hne.
      rewrite Forall_forall in Hf. apply Hf.
      apply list_elem_of_lookup. eauto.
Qed.

Lemma dims_fold_add r c T B : dims r c B -> dims r c (fold_left add_triple T B).
Proof.
  revert B. induction T as [|t T IH]; intros B H; simpl; [exact H|].
  apply IH. now apply dims_add_triple.
Qed.

Lemma get2_zeros r c i j :
  (i < r)%nat -> (j < c)%nat -> get2 (zeros r c) i j = Some 0.
Proof.
  intros Hi Hj. unfold get2, zeros.
  rewrite lookup_replicate_2 by exact Hi. now apply lookup_replicate_2.
Qed.

(** Two arrays of the same dimensions with the same cells are equal. *)
Lemma matrix_ext r c B1 B2 :
  dims r c B1 -> dims r c B2 ->
  (forall i j, (i < r)%nat -> (j < c)%nat -> get2 B1 i j = get2 B2 i j) ->
  B1 = B2.
Proof.
  intros [L1 F1] [L2 F2] H. apply list_eq. intros i.
  destruct (B1 !! i) as [r1|] eqn:E1; destruct (B2 !! i) as [r2|] eqn:E2.
  - f_equal. apply list_eq. intros j.
    assert (Hi : (i < r)%nat) by (rewrite <- L1; eapply lookup_lt_Some; eauto).
    assert (Hr1 : length r1 = c).
    { rewrite Forall_forall in F1. apply F1.
      apply list_elem_of_lookup. eauto. }
    assert (Hr2 : length r2 = c).
    { rewrite Forall_forall in F2. apply F2.
      apply list_elem_of_lookup. eauto. }
    destruct (Nat.lt_ge_cases j c) as [Hj|Hj].
    + specialize (H i j Hi Hj). unfold get2 in H. now rewrite E1, E2 in H.
    + rewrite !lookup_ge_None_2; [reflexivity | lia | lia].
  - apply lookup_lt_Some in E1. apply lookup_ge_None in E2. lia.
  - apply lookup_lt_Some in E2. apply lookup_ge_None in E1. lia.
  - reflexivity.
Qed.

Lemma lookup_map {A B : Type} (f : A -> B) (l : list A) (i : nat) :
  map f l !! i = option_map f (l !! i).
Proof.
  revert i. induction l as [|x l IH]; intros [|i]; simpl; try reflexivity.
  apply IH.
Qed.

Lemma dims_to_numpy {I : Type} (f : float -> float) (df : frame I float) :
  dims (n_rows df) (n_cols df) (map (map f) (to_numpy df)).
Proof.
  unfold dims, to_numpy. split.
  - now rewrite !length_map, length_seq.
  - apply Forall_forall. intros row Hin.
    apply list_elem_of_In, in_map_iff in Hin. destruct Hin as [row0 [<- Hin]].
    apply in_map_iff in Hin. destruct Hin as [i [<- _]].
    now rewrite !length_map.
Qed.

Lemma get2_to_numpy {I : Type} (f : float -> float) (df : frame I float) i j :
  (i < n_rows df)%nat ->
  get2 (map (map f) (to_numpy df)) i j =
  option_map (fun c => f (nth i (snd c) 0)) (columns df !! j).
Proof.
  intros Hi. unfold get2, to_numpy.
  rewrite !lookup_map, lookup_seq_lt by exact Hi. simpl.
  rewrite !lookup_map. now destruct (columns df !! j).
Qed.

Lemma cell_rectangular {I : Type} (df : frame I float) i j :
  rectangular df -> (i < n_rows df)%nat -> (j < n_cols df)%nat ->
  exists c y, columns df !! j = Some c /\ snd c !! i = Some y.
Proof.
  intros Hf Hi Hj. unfold rectangular in Hf.
  destruct (lookup_lt_is_Some_2 (columns df) j Hj) as [c Hc].
  assert (Hl : length (snd c) = n_rows df).
  { rewrite Forall_forall in Hf. apply Hf.
    apply list_elem_of_lookup. eauto. }
  destruct (lookup_lt_is_Some_2 (snd c) i) as [y Hy]; [lia|].
  eauto.
Qed.

Lemma sparsify_value {I : Type} (X : frame I float) :
  columns X <> [] ->
  sparsify X =
  Ok (MkCoo (frame_shape X)
            (map t_row (all_triples 0 (columns X)))
            (map t_col (all_triples 0 (columns X)))
            (map t_val (all_triples 0 (columns X)))).
Proof.
  intros Hne. unfold sparsify, to_coo, astype_sparse. cbn [sf_columns sf_index].
  rewrite to_coo_columns_triples. cbn [rbind].
  unfold frame_shape, n_rows, n_cols. rewrite length_map.
  destruct (columns X); [congruence | reflexivity].
Qed.

Lemma sparsify_no_column {I : Type} (X : frame I float) :
  columns X = [] -> sparsify X = Raise ValueError.
Proof.
  intros E. unfold sparsify, to_coo, astype_sparse. cbn [sf_columns].
  now rewrite E.
Qed.

Lemma sparsify_ok_columns {I : Type} (X : frame I float) (m : coo_matrix) :
  sparsify X = Ok m -> columns X <> [].
Proof.
  intros Hm E. rewrite (sparsify_no_column X E) in Hm. discriminate.
Qed.

(** Densifying the sparsified frame gives back every cell, a zero as the
    fill value. *)
Lemma toarray_sparsify {I : Type} (X : frame I float) (m : coo_matrix) :
  rectangular X -> sparsify X = Ok m ->
  toarray m = map (map stored_value) (to_numpy X).
Proof.
  intros Hwf Hm.
  rewrite (sparsify_value X (sparsify_ok_columns X m Hm)) in Hm.
  injection Hm as <-.
  unfold toarray. simpl. rewrite add_triples_fold.
  apply (matrix_ext (n_rows X) (n_cols X)).
  - apply dims_fold_add, dims_zeros.
  - apply dims_to_numpy.
  - intros i j Hi Hj.
    rewrite get2_fold_add, get2_zeros by assumption. cbn [option_map].
    rewrite cell_acc_all. cbn [Nat.leb]. rewrite Nat.sub_0_r.
    rewrite get2_to_numpy by exact Hi.
    destruct (cell_rectangular X i j Hwf Hi Hj) as [c [y [Hc Hy]]].
    rewrite Hc, Hy. cbn [option_map].
    rewrite add_if_kept_zero. now rewrite (nth_lookup_Some _ _ _ _ Hy).
Qed.

Lemma in_sparse_entries fill k a i v :
  In (i, v) (sparse_entries fill k a) <->
  (k <= i)%nat /\ a !! (i - k)%nat = Some v /\ kept fill v = true.
Proof.
  revert k. induction a as [|y rest IH]; intros k; simpl.
  - split; [contradiction | intros [_ [H _]]; discriminate].
  - assert (Hrest : In (i, v) (sparse_entries fill (S k) rest) <->
                    (k <= i)%nat /\ (y :: rest) !! (i - k)%nat = Some v /\
                    kept fill v = true /\ k <> i).
    { rewrite IH. split.
      - intros [Hle [Hl Hk]]. repeat split; [lia| |exact Hk|lia].
        destruct (i - k)%nat as [|d] eqn:Hd; [lia|]. simpl.
        now replace d with (i - S k)%nat by lia.
      - intros [Hle [Hl [Hk Hne]]]. repeat split; [lia| |exact Hk].
        destruct (i - k)%nat as [|d] eqn:Hd; [lia|]. simpl in Hl.
        now replace (i - S k)%nat with d by lia. }
    destruct (kept fill y) eqn:Ky; simpl; rewrite Hrest; split.
    + intros [Heq | H]; [|tauto].
      injection Heq as -> ->. rewrite Nat.sub_diag. simpl. auto.
    + intros [Hle [Hl Hk]]. destruct (Nat.eq_dec k i) as [->|Hne]; [|tauto].
      left. rewrite Nat.sub_diag in Hl. simpl in Hl. congruence.
    + tauto.
    + intros [Hle [Hl Hk]]. repeat split; try assumption.
      intros ->. rewrite Nat.sub_diag in Hl. simpl in Hl. congruence.
Qed.

Lemma in_col_triples j' k a i j v :
  In (i, j, v) (col_triples j' k a) <->
  j' = j /\ In (i, v) (sparse_entries 0 k a).
Proof.
  unfold col_triples. rewrite in_map_iff. split.
  - intros [[i0 v0] [Heq Hin]]. simpl in Heq. injection Heq as -> -> ->. auto.
  - intros [-> Hin]. exists (i, v). auto.
Qed.

(** The stored triples are the cells that are not a zero, each at its own
    position. *)
Lemma in_all_triples j0 (cols : list (string * list float)) i j v :
  In (i, j, v) (all_triples j0 cols) <->
  (j0 <= j)%nat /\
  exists c, cols !! (j - j0)%nat = Some c /\ snd c !! i = Some v /\
            kept 0 v = true.
Proof.
  revert j0. induction cols as [|c rest IH]; intros j0; simpl.
  - split; [contradiction | intros [_ [c [H _]]]; discriminate].
  - rewrite in_app_iff, in_col_triples, in_sparse_entries, IH.
    rewrite Nat.sub_0_r. split.
    + intros [[-> [_ [Hl Hk]]] | [Hle [c' [Hc' H]]]].
      * split; [lia|]. exists c. rewrite Nat.sub_diag. simpl. auto.
      * split; [lia|]. exists c'. split; [|exact H].
        destruct (j - j0)%nat as [|d] eqn:Hd; [lia|]. simpl.
        now replace d with (j - S j0)%nat by lia.
    + intros [Hle [c' [Hc' H]]]. destruct (Nat.eq_dec j0 j) as [->|Hne].
      * left. rewrite Nat.sub_diag in Hc'. simpl in Hc'. injection Hc' as ->.
        split; [reflexivity|]. split; [lia|]. exact H.
      * right. split; [lia|]. exists c'. split; [|exact H].
        destruct (j - j0)%nat as [|d] eqn:Hd; [lia|]. simpl in Hc'.
        now replace (j - S j0)%nat with d by lia.
Qed.

Lemma zip_triples (T : list (nat * nat * float)) :
  zip (zip (map t_row T) (map t_col T)) (map t_val T) = T.
Proof.
  induction T as [|[[i j] v] T IH]; simpl; [reflexivity|]. now rewrite IH.
Qed.

Lemma coo_triples_sparsify {I : Type} (X : frame I float) (m : coo_matrix) i j v :
  sparsify X = Ok m ->
  In (i, j, v) (coo_triples m) <->
  cell X i j = Some v /\ PrimFloat.eqb v 0 = false.
Proof.
  intros Hm.
  rewrite (sparsify_value X (sparsify_ok_columns X m Hm)) in Hm.
  injection Hm as <-.
  unfold coo_triples, cell. simpl. rewrite zip_triples, in_all_triples.
  rewrite Nat.sub_0_r. split.
  - intros [_ [c [Hc [Hv Hk]]]]. rewrite Hc. split; [exact Hv|].
    rewrite kept_zero in Hk. now apply negb_true_iff.
  - intros [Hc Hz]. split; [lia|].
    destruct (columns X !! j) as [c|]; [|discriminate].
    exists c. repeat split; [exact Hc|]. rewrite kept_zero. now rewrite Hz.
Qed.

(** A cell that is not the negative zero comes back bit for bit. *)
Lemma stored_value_id (x : float) : x <> (-0)%float -> stored_value x = x.
Proof.
  intros Hx. unfold stored_value.
  destruct (PrimFloat.eqb x 0) eqn:E; [|reflexivity].
  rewrite FloatAxioms.eqb_spec in E.
  change (Prim2SF 0) with (S754_zero false) in E.
  rewrite <- (SF2Prim_Prim2SF x) in Hx |- *.
  destruct (Prim2SF x) as [[|]|[|]| |[|] mx ex]; simpl in E;
    try discriminate; [|reflexivity].
  exfalso. apply Hx. reflexivity.
Qed.

Lemma same_value_stored (x : float) : same_value x (stored_value x).
Proof.
  unfold same_value, stored_value.
  destruct (PrimFloat.eqb x 0) eqn:E; [right; exact E | left; reflexivity].
Qed.

Lemma Forall2_map_r {A B : Type} (R : A -> B -> Prop) (f : A -> B) (l : list A) :
  (forall x, R x (f x)) -> Forall2 R l (map f l).
Proof. intros H. induction l; simpl; constructor; auto. Qed.

End SparsifierFacts.

(* ===================================================================== *)
(** * Facts about the weight inspector                                    *)
(* ===================================================================== *)

Section InspectorFacts.
Import Inspector.
Local Open Scope float_scope.
Context {I : Type}.

Lemma filter_split_perm {A : Type} (p : A -> bool) (l : list A) :
  Permutation l (List.filter (fun x => negb (p x)) l ++ List.filter p l).
Proof.
  induction l as [|x l IH]; simpl; [constructor|].
  destruct (p x); simpl.
  - now apply Permutation_cons_app.
  - now constructor.
Qed.

Lemma filter_all {A : Type} (p : A -> bool) (l : list A) :
  List.Forall (fun x => p x = true) (List.filter p l).
Proof.
  apply List.Forall_forall. intros x Hin. now apply filter_In in Hin.
Qed.

Lemma strongly_sorted_app {A : Type} (R : A -> A -> Prop) (l1 l2 : list A) :
  StronglySorted R (l1 ++ l2) ->
  StronglySorted R l1 /\ StronglySorted R l2 /\
  (forall a b, In a l1 -> In b l2 -> R a b).
Proof.
  induction l1 as [|x l1 IH]; simpl; intros H.
  - repeat split; [constructor | exact H | contradiction].
  - apply StronglySorted_inv in H. destruct H as [Hs Hf].
    destruct (IH Hs) as [H1 [H2 H3]].
    apply Forall_app in Hf. destruct Hf as [Hf1 Hf2].
    repeat split.
    + now constructor.
    + exact H2.
    + intros a b [<-|Ha] Hb; [|now apply H3].
      rewrite List.Forall_forall in Hf2. now apply Hf2.
Qed.

(** Rows of the table: the column labels paired with the weights. *)
Lemma inspect_rows (coef : list float) (cols : list string) top :
  inspect coef cols top ->
  length coef = length cols /\
  exists sorted, sort_values_desc (zip cols coef) sorted /\ top = head 30 sorted.
Proof.
  intros [df0 [df [rows [sorted [H0 [H1 [H2 [H3 H4]]]]]]]].
  unfold make_weight_frame in H0.
  destruct (Nat.eqb (length coef) (length cols)) eqn:E; [|discriminate].
  injection H0 as <-. unfold set_columns in H1. simpl in H1.
  injection H1 as <-. unfold rows_by, column in H2. simpl in H2.
  injection H2 as <-. apply Nat.eqb_eq in E. eauto.
Qed.

Lemma inspect_intro (coef : list float) (cols : list string) sorted :
  length coef = length cols ->
  sort_values_desc (zip cols coef) sorted ->
  inspect coef cols (head 30 sorted).
Proof.
  intros E Hs. unfold inspect.
  exists (Frame cols [("0", coef)]), (Frame cols [("Weight", coef)]),
         (zip cols coef), sorted.
  unfold make_weight_frame. apply Nat.eqb_eq in E. rewrite E.
  repeat split; auto.
Qed.

(** What every result of the sort has: the first 30 rows are numbers in
    descending order followed, if there is room, by NaN rows; nothing is
    lost or invented; and no hidden row outweighs a shown one. *)
Lemma sort_values_head (rows sorted : list (I * float)) :
  sort_values_desc rows sorted ->
  length (head 30 sorted) = Nat.min 30 (length rows) /\
  Permutation rows (head 30 sorted ++ drop 30 sorted) /\
  (exists body tail,
      head 30 sorted = (body ++ tail)%list /\
      StronglySorted desc body /\
      List.Forall (fun r => num_row r = true) body /\
      List.Forall (fun r => nan_row r = true) tail) /\
  (forall a b, In a (head 30 sorted) -> In b (drop 30 sorted) ->
               num_row b = true -> num_row a = true /\ desc a b).
Proof.
  intros [body [tail [-> [Hb [Ht Hs]]]]].
  assert (Hperm : Permutation rows (body ++ tail)).
  { etransitivity; [apply (filter_split_perm nan_row)|].
    now apply Permutation_app. }
  assert (Hnum : List.Forall (fun r => num_row r = true) body).
  { eapply Permutation_Forall; [exact Hb|]. apply filter_all. }
  assert (Hnan : List.Forall (fun r => nan_row r = true) tail).
  { eapply Permutation_Forall; [exact Ht|]. apply filter_all. }
  unfold head. split; [|split; [|split]].
  - rewrite length_take. now rewrite (Permutation_length Hperm).
  - now rewrite take_drop.
  - exists (take 30 body), (take (30 - length body) tail).
    split; [apply take_app|]. rewrite <- (take_drop 30 body) in Hs, Hnum.
    apply strongly_sorted_app in Hs. destruct Hs as [Hs _].
    apply Forall_app in Hnum. destruct Hnum as [Hnum _].
    repeat split; [exact Hs | exact Hnum |].
    rewrite <- (take_drop (30 - length body) tail) in Hnan.
    now apply Forall_app in Hnan.
  - intros a b Ha Hb0 Hnb.
    rewrite take_app in Ha. rewrite drop_app in Hb0.
    apply in_app_iff in Hb0. destruct Hb0 as [Hb0 | Hb0].
    2:{ exfalso. rewrite List.Forall_forall in Hnan.
        assert (Hin : In b tail).
        { apply list_elem_of_In. apply list_elem_of_In in Hb0.
          apply list_elem_of_lookup in Hb0. destruct Hb0 as [i Hi].
          rewrite lookup_drop in Hi. apply list_elem_of_lookup. eauto. }
        specialize (Hnan b Hin). unfold num_row in Hnb. rewrite Hnan in Hnb.
        discriminate. }
    assert (Hlen : (30 < length body)%nat).
    { destruct (Nat.lt_ge_cases 30 (length body)) as [Hl|Hl]; [exact Hl|].
      rewrite drop_ge in Hb0 by lia. contradiction. }
    replace (30 - length body)%nat with 0%nat in Ha by lia.
    rewrite take_0, app_nil_r in Ha.
    rewrite <- (take_drop 30 body) in Hs, Hnum.
    apply Forall_app in Hnum. destruct Hnum as [Hnum _].
    rewrite List.Forall_forall in Hnum.
    apply strongly_sorted_app in Hs. destruct Hs as [_ [_ Hs]].
    split; [now apply Hnum | now apply Hs].
Qed.

Lemma insert_stable_perm (r : I * float) l :
  Permutation (r :: l) (insert_stable r l).
Proof.
  induction l as [|x rest IH]; simpl; [reflexivity|].
  destruct (PrimFloat.leb (snd x) (snd r)); [reflexivity|].
  etransitivity; [apply perm_swap|]. now constructor.
Qed.

Lemma stable_sort_perm (l : list (I * float)) :
  Permutation l (fold_right insert_stable [] l).
Proof.
  induction l as [|r l IH]; simpl; [constructor|].
  etransitivity; [|apply insert_stable_perm]. now constructor.
Qed.

Lemma insert_stable_sorted (r : I * float) l :
  num_row r = true ->
  List.Forall (fun x => num_row x = true) l ->
  StronglySorted desc l ->
  StronglySorted desc (insert_stable r l).
Proof.
  intros Hr. induction l as [|x rest IH]; simpl; intros Hn Hs.
  - repeat constructor.
  - apply StronglySorted_inv in Hs. destruct Hs as [Hs Hx].
    inversion Hn as [|? ? Hnx Hnrest]; subst.
    destruct (PrimFloat.leb (snd x) (snd r)) eqn:E.
    + constructor; [now constructor|].
      constructor; [exact E|].
      eapply List.Forall_impl; [|exact Hx].
      intros y Hy. unfold desc in *. eapply leb_trans; eauto.
    + constructor; [now apply IH|].
      eapply Permutation_Forall; [apply insert_stable_perm|].
      constructor; [|exact Hx].
      unfold desc. unfold num_row, nan_row in Hr, Hnx.
      apply negb_true_iff in Hr, Hnx.
      destruct (leb_total (snd r) (snd x) Hr Hnx) as [H|H]; [exact H|].
      congruence.
Qed.

(** The call has a result on every table: the stable order is one. *)
Lemma stable_sort_admissible (rows : list (I * float)) :
  sort_values_desc rows (stable_sort_desc rows).
Proof.
  exists (fold_right insert_stable [] (List.filter num_row rows)),
         (List.filter nan_row rows).
  repeat split; [apply stable_sort_perm | reflexivity |].
  pose proof (filter_all num_row rows) as Hn.
  induction (List.filter num_row rows) as [|r l IH]; simpl; [constructor|].
  inversion Hn; subst. apply insert_stable_sorted; auto.
  eapply Permutation_Forall; [apply stable_sort_perm | assumption].
Qed.

Lemma all_tied_sorted (w : float) (l : list (I * float)) :
  PrimFloat.leb w w = true ->
  List.Forall (fun r => snd r = w) l ->
  StronglySorted desc l.
Proof.
  intros Hw. induction 1 as [|r l Hr Hl IH]; constructor; [exact IH|].
  eapply List.Forall_impl; [|exact Hl].
  intros y Hy. unfold desc. now rewrite Hr, Hy.
Qed.

End InspectorFacts.

(* ===================================================================== *)
(** * Facts about outcomes                                                *)
(* ===================================================================== *)

Section OutcomeFacts.

Lemma obind_ok_inv {A B : Type} (o : outcome A) (k : A -> outcome B) (b : B) :
  obind o k = Ok b -> exists a, o = Ok a /\ k a = Ok b.
Proof. destruct o as [[a|e]|]; simpl; intros H; try discriminate. eauto. Qed.

End OutcomeFacts.

(** One step of a sequence of calls that returned: the first call
    returned, and the rest returned from its value. *)
Ltac step H :=
  match type of H with
  | obind _ _ = Done (Ok _) =>
      let a := fresh "a" in
      let E := fresh "E" in
      apply obind_ok_inv in H; destruct H as [a [E H]];
      try (injection E as E)
  end.

(* ===================================================================== *)
(** * Facts about the model selector                                      *)
(* ===================================================================== *)

Section SelectorFacts.
Import Sparsifier Selector.
Local Open Scope float_scope.

(** The scan ends on an element that no element of the list exceeds. *)
Lemma argmax_from_spec (l pre : list float) (bi : nat) (b : float) :
  pre !! bi = Some b ->
  (forall x, In x pre -> PrimFloat.ltb b x = false) ->
  exists v, (pre ++ l) !! argmax_from bi b (length pre) l = Some v /\
            forall x, In x (pre ++ l) -> PrimFloat.ltb v x = false.
Proof.
  revert pre bi b. induction l as [|x rest IH]; intros pre bi b Hb Hmax; simpl.
  - exists b. rewrite app_nil_r. auto.
  - replace (pre ++ x :: rest)%list with ((pre ++ [x]) ++ rest)%list
      by now rewrite <- app_assoc.
    replace (S (length pre)) with (length (pre ++ [x]))
      by (rewrite length_app; simpl; lia).
    destruct (PrimFloat.ltb b x) eqn:E.
    + apply IH.
      * rewrite lookup_app_r by lia. now rewrite Nat.sub_diag.
      * intros y Hy. apply in_app_iff in Hy. destruct Hy as [Hy|[<-|[]]].
        -- destruct (PrimFloat.ltb x y) eqn:E'; [|reflexivity].
           rewrite <- (Hmax y Hy). symmetry. eapply ltb_trans; eauto.
        -- apply ltb_irrefl.
    + apply IH.
      * rewrite lookup_app_l; [exact Hb|]. eapply lookup_lt_Some; eauto.
      * intros y Hy. apply in_app_iff in Hy. destruct Hy as [Hy|[<-|[]]]; auto.
Qed.

Lemma argmax_first_spec (l : list float) :
  l <> [] ->
  exists v, l !! argmax_first l = Some v /\
            forall x, In x l -> PrimFloat.ltb v x = false.
Proof.
  destruct l as [|x rest]; [congruence|]. intros _. unfold argmax_first.
  apply (argmax_from_spec rest [x] 0 x); [reflexivity|].
  intros y [<-|[]]. apply ltb_irrefl.
Qed.

(** The grid of the notebook: ten configurations, the five strengths in
    order, each with the two penalties. *)
Lemma logreg_grid_points :
  ParameterGrid logreg_params =
  [MkParams l1 0x1.47ae147ae147bp-7; MkParams l2 0x1.47ae147ae147bp-7;
   MkParams l1 0x1.999999999999ap-4; MkParams l2 0x1.999999999999ap-4;
   MkParams l1 1; MkParams l2 1;
   MkParams l1 10; MkParams l2 10;
   MkParams l1 100; MkParams l2 100].
Proof. reflexivity. Qed.

Lemma in_parameter_grid (g : param_grid) (p : params) :
  In p (ParameterGrid g) <->
  In (p_penalty p) (grid_penalty g) /\ In (p_C p) (grid_C g).
Proof.
  unfold ParameterGrid. rewrite in_flat_map. split.
  - intros [c [Hc Hp]]. apply in_map_iff in Hp. destruct Hp as [q [<- Hq]].
    simpl. auto.
  - intros [Hp Hc]. exists (p_C p). split; [exact Hc|].
    apply in_map_iff. exists (p_penalty p). split; [|exact Hp].
    now destruct p.
Qed.

Lemma agreements_filter (y_true y_pred : list Z) :
  agreements y_true y_pred =
  length (List.filter (fun lp => Z.eqb (fst lp) (snd lp)) (combine y_true y_pred)).
Proof.
  revert y_pred. induction y_true as [|a y IH]; intros [|b p]; simpl; try reflexivity.
  destruct (Z.eqb a b); simpl; now rewrite IH.
Qed.

Lemma accuracy_share_right (y_true y_pred : list Z) :
  accuracy y_true y_pred = share_right y_true y_pred.
Proof.
  unfold accuracy, share_right, Baseline.proportion.
  now rewrite agreements_filter.
Qed.

(** The share of rows predicted right is a number not below zero, as soon
    as there is a row. *)
Lemma share_right_number (y_true y_pred : list Z) :
  y_true <> [] -> (Z.of_nat (length y_true) < 2 ^ 53)%Z ->
  SFnonneg (Prim2SF (share_right y_true y_pred)).
Proof.
  intros Hne Hb. unfold share_right. apply div_nonneg.
  - apply float_of_nat_nonneg.
    pose proof (List.filter_length_le (fun lp => Z.eqb (fst lp) (snd lp))
                  (combine y_true y_pred)) as H1.
    rewrite length_combine in H1. lia.
  - apply float_of_nat_positive; [|exact Hb].
    destruct y_true; [congruence | simpl; lia].
Qed.

(** So is the mean of such shares over at least one split. *)
Lemma mean_number (scores : list float) :
  scores <> [] -> (Z.of_nat (length scores) < 2 ^ 53)%Z ->
  List.Forall (fun v => SFnonneg (Prim2SF v)) scores ->
  SFnonneg (Prim2SF (fold_left PrimFloat.add scores 0 /
                     Baseline.float_of_nat (length scores))).
Proof.
  intros Hne Hb Hall. apply div_nonneg.
  - apply sum_nonneg; [vm_compute; exact I | exact Hall].
  - apply float_of_nat_positive; [|exact Hb].
    destruct scores; [congruence | simpl; lia].
Qed.

(** On numbers, the scan ends on the first greatest element: every element
    is at most it, and every element before it is below it. *)
Lemma argmax_from_first (l pre : list float) (bi : nat) (b : float) :
  pre !! bi = Some b ->
  (forall x, In x (pre ++ l) -> PrimFloat.is_nan x = false) ->
  (forall x, In x pre -> PrimFloat.ltb b x = false) ->
  (forall j x, (j < bi)%nat -> pre !! j = Some x -> PrimFloat.ltb x b = true) ->
  exists v, (pre ++ l) !! argmax_from bi b (length pre) l = Some v /\
            (forall x, In x (pre ++ l) -> PrimFloat.leb x v = true) /\
            (forall j x, (j < argmax_from bi b (length pre) l)%nat ->
                         (pre ++ l) !! j = Some x -> PrimFloat.ltb x v = true).
Proof.
  revert pre bi b. induction l as [|x rest IH]; intros pre bi b Hb Hnan Hmax Hbefore.
  - simpl. exists b. rewrite app_nil_r in *. split; [exact Hb|]. split; [|exact Hbefore].
    intros y Hy. apply not_ltb_leb; auto.
    apply Hnan. apply list_elem_of_In, list_elem_of_lookup. eauto.
  - assert (Hbn : PrimFloat.is_nan b = false).
    { apply Hnan, in_app_iff. left. apply list_elem_of_In, list_elem_of_lookup. eauto. }
    assert (Hlt : (bi < length pre)%nat) by (eapply lookup_lt_Some; eauto).
    cbn [argmax_from].
    replace (pre ++ x :: rest)%list with ((pre ++ [x]) ++ rest)%list in *
      by now rewrite <- app_assoc.
    replace (S (length pre)) with (length (pre ++ [x]))
      by (rewrite length_app; simpl; lia).
    destruct (PrimFloat.ltb b x) eqn:E.
    + assert (Hpre : forall y, In y pre -> PrimFloat.ltb y x = true).
      { intros y Hy. eapply leb_ltb_trans; [|exact E].
        apply not_ltb_leb; auto. apply Hnan, in_app_iff. left. apply in_app_iff. now left. }
      apply IH.
      * rewrite lookup_app_r by lia. now rewrite Nat.sub_diag.
      * exact Hnan.
      * intros y Hy. apply in_app_iff in Hy. destruct Hy as [Hy|[<-|[]]].
        -- apply ltb_asym. now apply Hpre.
        -- apply ltb_irrefl.
      * intros j y Hj Hy. rewrite lookup_app_l in Hy by exact Hj.
        apply Hpre. apply list_elem_of_In, list_elem_of_lookup. eauto.
    + apply IH.
      * rewrite lookup_app_l; [exact Hb | exact Hlt].
      * exact Hnan.
      * intros y Hy. apply in_app_iff in Hy. destruct Hy as [Hy|[<-|[]]]; auto.
      * intros j y Hj Hy. rewrite lookup_app_l in Hy by lia. eauto.
Qed.

Lemma argmax_first_first (l : list float) :
  l <> [] ->
  (forall x, In x l -> PrimFloat.is_nan x = false) ->
  exists v, l !! argmax_first l = Some v /\
            (forall x, In x l -> PrimFloat.leb x v = true) /\
            (forall j x, (j < argmax_first l)%nat -> l !! j = Some x ->
                         PrimFloat.ltb x v = true).
Proof.
  destruct l as [|x rest]; [congruence|]. intros _ Hnan. unfold argmax_first.
  apply (argmax_from_first rest [x] 0 x); [reflexivity|exact Hnan| |].
  - intros y [<-|[]]. apply ltb_irrefl.
  - intros j y Hj. lia.
Qed.

End SelectorFacts.

(* ===================================================================== *)
(** * Facts about the run: the dense frames are only read                 *)
(* ===================================================================== *)

Section NotebookFacts.
Import Sparsifier Binarizer Baseline Selector Inspector Notebook.

Context {Estimator : Type}.
Variable fit : params -> coo_matrix -> list Z -> result Estimator.
Variable predict : Estimator -> coo_matrix -> result (list Z).
Variable coef_ : Estimator -> list float.
Variable kfold : nat -> coo_matrix -> list Z -> result (list cv_split).
Variable files : pickles.

Abbreviation store := (Notebook.store Estimator).

Lemma dense_intact_deref (s : store) :
  dense_intact Estimator files s ->
  deref _ s "X_train_tfidf" = Some (ODense _ (train files)) /\
  deref _ s "X_test_tfidf" = Some (ODense _ (test files)).
Proof.
  intros [H1 [H2 [H3 [H4 _]]]]. unfold deref. now rewrite H1, H2.
Qed.

Lemma dense_intact_not_shared (s : store) (x : string) (l : nat) :
  dense_intact Estimator files s -> env _ s !! x = Some l ->
  x <> "X_train_tfidf" -> x <> "X_test_tfidf" ->
  env _ s !! "X_train_tfidf" <> Some l /\ env _ s !! "X_test_tfidf" <> Some l.
Proof.
  intros [H1 [H2 [_ [_ [_ Hal]]]]] Hx Hn1 Hn2.
  specialize (Hal x l Hx Hn1 Hn2). rewrite H1, H2.
  split; intros E; injection E as <-; lia.
Qed.

Lemma dense_intact_load : dense_intact Estimator files (cell_load _ files (empty_store _)).
Proof.
  unfold dense_intact, cell_load, new, assign, alloc, empty_store.
  cbn [env heap next fst snd]. repeat split; [lia|].
  intros x l Hl Hx1 Hx2. rewrite !lookup_insert in Hl.
  repeat case_decide; simplify_eq; try lia.
Qed.

(** Binding another name to a new object leaves them intact. *)
Lemma dense_intact_new (x : string) (o : obj Estimator) (s : store) :
  x <> "X_train_tfidf" -> x <> "X_test_tfidf" ->
  dense_intact Estimator files s -> dense_intact Estimator files (new _ x o s).
Proof.
  intros Hx1 Hx2 [H1 [H2 [H3 [H4 [H5 H6]]]]].
  unfold dense_intact, new, assign, alloc. cbn [env heap next fst snd].
  split; [|split; [|split; [|split; [|split]]]].
  - now rewrite lookup_insert_ne.
  - now rewrite lookup_insert_ne.
  - rewrite lookup_insert_ne; [exact H3 | lia].
  - rewrite lookup_insert_ne; [exact H4 | lia].
  - lia.
  - intros y l Hl Hy1 Hy2. rewrite lookup_insert in Hl.
    case_decide; [injection Hl as <-; exact H5 | eauto].
Qed.

(** So does writing into an object at any other location. *)
Lemma dense_intact_update (l : nat) (o : obj Estimator) (s : store) :
  (2 <= l)%nat -> dense_intact Estimator files s -> dense_intact Estimator files (update _ l o s).
Proof.
  intros Hl [H1 [H2 [H3 [H4 [H5 H6]]]]].
  unfold dense_intact, update. cbn [env heap next].
  split; [exact H1|]. split; [exact H2|].
  split; [rewrite lookup_insert_ne; [exact H3 | lia]|].
  split; [rewrite lookup_insert_ne; [exact H4 | lia]|].
  split; [exact H5 | exact H6].
Qed.


Lemma sparsify_var_intact target source (s s' : store) :
  target <> "X_train_tfidf" -> target <> "X_test_tfidf" ->
  sparsify_var _ target source s = Ok s' ->
  dense_intact Estimator files s -> dense_intact Estimator files s'.
Proof.
  intros Ht1 Ht2 H Hs. unfold sparsify_var in H. repeat step H.
  injection H as <-. now apply dense_intact_new.
Qed.

Lemma binarize_var_intact y (s s' : store) :
  y <> "X_train_tfidf" -> y <> "X_test_tfidf" ->
  binarize_var _ y s = Ok s' ->
  dense_intact Estimator files s -> dense_intact Estimator files s'.
Proof.
  intros Ht1 Ht2 H Hs. unfold binarize_var in H. repeat step H.
  injection H as <-. now apply dense_intact_new.
Qed.

Lemma cell_sparsify_intact (s s' : store) out :
  cell_sparsify _ s = Ok (s', out) -> dense_intact Estimator files s -> dense_intact Estimator files s'.
Proof.
  intros H Hs. unfold cell_sparsify in H. repeat step H. injection H as <- _.
  eapply sparsify_var_intact; [| |eassumption|]; [done|done|].
  eapply sparsify_var_intact; [| |eassumption|]; [done|done|assumption].
Qed.

Lemma cell_binarize_intact (s s' : store) out :
  cell_binarize _ s = Ok (s', out) -> dense_intact Estimator files s -> dense_intact Estimator files s'.
Proof.
  intros H Hs. unfold cell_binarize in H. repeat step H. injection H as <- _.
  eapply binarize_var_intact; [| |eassumption|]; [done|done|].
  eapply binarize_var_intact; [| |eassumption|]; [done|done|assumption].
Qed.

Lemma cell_baseline_intact (s s' : store) out :
  cell_baseline _ s = Ok (s', out) -> dense_intact Estimator files s -> dense_intact Estimator files s'.
Proof.
  intros H Hs. unfold cell_baseline in H. repeat step H. now injection H as <- _.
Qed.

Lemma cell_gridsearch_intact (s s' : store) out :
  cell_gridsearch _ fit predict kfold s = Ok (s', out) ->
  dense_intact Estimator files s -> dense_intact Estimator files s'.
Proof.
  intros H Hs. unfold cell_gridsearch in H. cbv zeta in H. repeat step H.
  injection H as <- _. now repeat apply dense_intact_new.
Qed.

Lemma env_new_eq (x : string) (o : obj Estimator) (s : store) :
  env _ (new _ x o s) !! x = Some (next _ s).
Proof. unfold new, assign, alloc. cbn [env fst snd]. apply lookup_insert_eq. Qed.

Lemma heap_new_eq (x : string) (o : obj Estimator) (s : store) :
  heap _ (new _ x o s) !! next _ s = Some o.
Proof. unfold new, assign, alloc. cbn [heap fst snd]. apply lookup_insert_eq. Qed.

Lemma deref_new_ne (x y : string) (o : obj Estimator) (s : store) :
  x <> y -> (forall l, env _ s !! y = Some l -> (l < next _ s)%nat) ->
  deref _ (new _ x o s) y = deref _ s y.
Proof.
  intros Hne Hlt. unfold deref, new, assign, alloc. cbn [env heap fst snd].
  rewrite lookup_insert_ne by exact Hne.
  destruct (env _ s !! y) as [l|] eqn:E; [|reflexivity].
  rewrite lookup_insert_ne; [reflexivity|]. specialize (Hlt l eq_refl). lia.
Qed.

(** Cell 11 reads the column labels of the dense training frame as they
    were loaded, and leaves the weights under them. *)
Lemma cell_inspect_table (s s' : store) out :
  cell_inspect _ coef_ s = Ok (s', out) -> dense_intact Estimator files s ->
  dense_intact Estimator files s' /\
  exists gs,
    deref _ s "logreg_grid" = Some (OGrid _ gs) /\
    deref _ s' "parameter_weight_df" =
      Some (OWeights _ (Frame (labels (train files))
                              [("Weight", coef_ (best_estimator_ _ gs))])) /\
    length (coef_ (best_estimator_ _ gs)) = n_cols (train files).
Proof.
  intros H Hs. unfold cell_inspect in H. repeat step H.
  rewrite env_new_eq, heap_new_eq in H. step H. injection H as <- _.
  destruct (dense_intact_deref s Hs) as [Htrain _].
  unfold read in E, E1. rewrite Htrain in E1. injection E1 as <-.
  simpl in E2. injection E2 as <-.
  destruct (deref _ s "logreg_grid") as [og|] eqn:Eg; [|discriminate].
  injection E as <-. destruct og; try discriminate. simpl in E0.
  injection E0 as <-.
  unfold make_weight_frame in E3.
  destruct (Nat.eqb (length (coef_ (best_estimator_ _ gs)))
                    (length (labels (train files)))) eqn:El; [|discriminate].
  injection E3 as <-. unfold set_columns in E4. simpl in E4. injection E4 as <-.
  split.
  - apply dense_intact_update; [destruct Hs as [_ [_ [_ [_ [Hn _]]]]]; exact Hn|].
    now apply dense_intact_new.
  - exists gs. repeat split.
    + unfold deref, update. cbn [env heap]. rewrite env_new_eq.
      now rewrite lookup_insert_eq.
    + apply Nat.eqb_eq in El. rewrite El. unfold labels, n_cols.
      apply length_map.
Qed.

Lemma notebook_intact_steps :
  List.Forall (intact_step Estimator files) (notebook _ fit predict coef_ kfold).
Proof.
  unfold notebook.
  repeat (apply List.Forall_cons; [intros s s' out H Hs|]);
    [ .. | apply List.Forall_nil].
  - eapply cell_sparsify_intact; eauto.
  - eapply cell_binarize_intact; eauto.
  - eapply cell_baseline_intact; eauto.
  - eapply cell_gridsearch_intact; eauto.
  - eapply cell_inspect_table; eauto.
Qed.

Lemma run_intact cells (s s' : store) out :
  List.Forall (intact_step Estimator files) cells ->
  run _ cells s = Ok (s', out) -> dense_intact Estimator files s -> dense_intact Estimator files s'.
Proof.
  intros Hc. revert s s' out.
  induction Hc as [|c rest Hstep _ IH]; intros s s' out H Hs; simpl in H.
  - now injection H as <- _.
  - repeat step H. injection H as <- _.
    match goal with
    | E1 : c s = Done (Ok ?r), E2 : run _ rest (fst ?r) = Done (Ok ?r') |- _ =>
        destruct r as [s1 o1], r' as [s2 o2]; cbn [fst snd] in *;
        eapply IH; [exact E2|]; eapply Hstep; eauto
    end.
Qed.

Lemma run_app cells1 cells2 (s s' : store) out :
  run _ (cells1 ++ cells2) s = Ok (s', out) ->
  exists s1 o1 o2,
    run _ cells1 s = Ok (s1, o1) /\ run _ cells2 s1 = Ok (s', o2) /\
    out = o1 ++ o2.
Proof.
  revert s s' out. induction cells1 as [|c rest IH]; intros s s' out H.
  - exists s, [], out. simpl in *. auto.
  - simpl in H. repeat step H. injection H as <- <-.
    match goal with
    | E1 : c s = Done (Ok ?r), E2 : run _ (rest ++ cells2) (fst ?r) = Done (Ok ?r') |- _ =>
        destruct r as [sa oa], r' as [sb ob]; cbn [fst snd] in *;
        destruct (IH _ _ _ E2) as [s1 [o1 [o2 [H1 [H2 ->]]]]];
        exists s1, (oa ++ o1), o2; simpl; rewrite E1; cbn [obind fst snd];
        rewrite H1; cbn [obind fst snd]; rewrite app_assoc; auto
    end.
Qed.

(** C9. Start from the load of any four pickled inputs and run any number
    of the following cells, in order, with any classifier: whenever the
    run gets that far, [X_train_tfidf] and [X_test_tfidf] still name the
    frames that were loaded, cell for cell and label for label, and no
    other variable names the same objects (every other cell binds new
    objects); and after the last cell the table of weights is indexed by the column labels of
    the loaded training frame, in their order, so that every table shown
    pairs the fitted weights with those labels. *)
Theorem dense_frames_never_mutated (n : nat) (s : store) (out : list output) :
  run _ (take n (notebook _ fit predict coef_ kfold))
        (cell_load _ files (empty_store _)) = Ok (s, out) ->
  deref _ s "X_train_tfidf" = Some (ODense _ (train files)) /\
  deref _ s "X_test_tfidf" = Some (ODense _ (test files)) /\
  (forall x l, env _ s !! x = Some l ->
               x <> "X_train_tfidf" -> x <> "X_test_tfidf" ->
               env _ s !! "X_train_tfidf" <> Some l /\
               env _ s !! "X_test_tfidf" <> Some l) /\
  ((5 <= n)%nat ->
   exists gs,
     deref _ s "parameter_weight_df" =
       Some (OWeights _ (Frame (labels (train files))
                               [("Weight", coef_ (best_estimator_ _ gs))])) /\
     forall top, shown _ s top ->
                 inspect (coef_ (best_estimator_ _ gs)) (labels (train files)) top).
Proof.
  intros H.
  assert (Hin : dense_intact Estimator files s).
  { eapply run_intact; [|exact H|apply dense_intact_load].
    apply Forall_take, notebook_intact_steps. }
  destruct (dense_intact_deref s Hin) as [H1 H2].
  split; [exact H1|]. split; [exact H2|].
  split; [intros x l; now apply dense_intact_not_shared|].
  intros Hn. rewrite take_ge in H by (simpl; lia).
  change (notebook _ fit predict coef_ kfold)
    with ([cell_sparsify _; cell_binarize _; cell_baseline _;
           cell_gridsearch _ fit predict kfold] ++ [cell_inspect _ coef_]) in H.
  apply run_app in H. destruct H as [s4 [o1 [o2 [Hr1 [Hr2 _]]]]].
  assert (H4 : dense_intact Estimator files s4).
  { eapply run_intact; [|exact Hr1|apply dense_intact_load].
    apply (Forall_take _ 4%nat _ notebook_intact_steps). }
  simpl in Hr2. step Hr2. injection Hr2 as <- _.
  match goal with
  | E : cell_inspect _ coef_ s4 = Done (Ok ?r) |- _ =>
      destruct r as [s5 o5]; cbn [fst] in *;
      destruct (cell_inspect_table s4 s5 o5 E H4) as [_ [gs [_ [Htab Hlen]]]]
  end.
  exists gs. split; [exact Htab|].
  intros top [df [rows [sorted [Hdf [Hrows [Hsort ->]]]]]].
  rewrite Htab in Hdf. injection Hdf as <-.
  unfold rows_by, column in Hrows. simpl in Hrows. injection Hrows as <-.
  apply inspect_intro; [|exact Hsort].
  rewrite Hlen. unfold labels, n_cols. now rewrite length_map.
Qed.

End NotebookFacts.

(* ===================================================================== *)
(** * The label binarizer and the baseline estimator: main results        *)
(* ===================================================================== *)

Section LabelResults.
Import Binarizer Baseline.
Local Open Scope float_scope.

Lemma lookup_indicator (col : list pyobj) (i : nat) :
  map (fun v => Z.b2z (is_fatal v)) col !! i =
  option_map (fun v => Z.b2z (is_fatal v)) (col !! i).
Proof. apply lookup_map. Qed.

(** C2. For every label frame with the column [cm_highestinjury], the
    binarizer returns a vector over the same rows that holds only 0 and 1,
    holds 1 exactly at the rows whose label is the string ["Fatal"]
    (compared character by character, so case matters), holds 0 at every
    other row, and so has as many 1s as there are such rows. *)
Theorem binarize_indicator {I : Type} (y : frame I pyobj) (col : list pyobj) :
  column y "cm_highestinjury" = Some col ->
  exists v,
    binarize y = Ok (Series (index y) v) /\
    length v = length col /\
    List.Forall (fun z => z = 0%Z \/ z = 1%Z) v /\
    (forall i, v !! i = Some 1%Z <-> col !! i = Some (PyStr "Fatal")) /\
    (forall i x, col !! i = Some x -> x <> PyStr "Fatal" -> v !! i = Some 0%Z) /\
    count_if (Z.eqb 1) v = count_if is_fatal col /\
    (forall x, is_fatal x = true <-> x = PyStr "Fatal").
Proof.
  intros Hc. exists (map (fun v => Z.b2z (is_fatal v)) col).
  split; [now apply binarize_column|].
  split; [apply length_map|].
  split; [|split; [|split; [|split]]].
  - apply List.Forall_forall. intros z Hz. apply in_map_iff in Hz.
    destruct Hz as [x [<- _]]. destruct (is_fatal x); auto.
  - intros i. rewrite lookup_indicator. destruct (col !! i) as [x|]; simpl.
    + destruct (is_fatal x) eqn:E; simpl; split; intros H.
      * apply is_fatal_iff in E. now subst.
      * reflexivity.
      * discriminate.
      * injection H as ->. vm_compute in E. discriminate.
    + split; discriminate.
  - intros i x Hx Hne. rewrite lookup_indicator, Hx. simpl.
    destruct (is_fatal x) eqn:E; [|reflexivity].
    apply is_fatal_iff in E. contradiction.
  - rewrite count_if_map. apply count_if_ext. intros x.
    now destruct (is_fatal x).
  - apply is_fatal_iff.
Qed.

Lemma binarize_indicator_witness :
  column toy_labels "cm_highestinjury" =
    Some [PyStr "Fatal"; PyStr "Minor"; PyStr "Fatal"; PyStr "Minor"] /\
  exists v, binarize toy_labels = Ok (Series [0; 1; 2; 3]%Z v) /\
            count_if (Z.eqb 1) v = 2%nat.
Proof.
  split; [reflexivity|].
  destruct (binarize_indicator toy_labels
              [PyStr "Fatal"; PyStr "Minor"; PyStr "Fatal"; PyStr "Minor"]
              eq_refl) as [v [H1 [_ [_ [_ [_ [H6 _]]]]]]].
  exists v. split; [exact H1 | exact H6].
Defined.

(** The comparison is by characters: other spellings are not ["Fatal"]. *)
Example is_fatal_case_sensitive :
  is_fatal (PyStr "Fatal") = true /\ is_fatal (PyStr "fatal") = false /\
  is_fatal (PyStr "FATAL") = false /\ is_fatal (PyStr "Fatal ") = false /\
  is_fatal (PyFloat nan) = false /\ is_fatal PyNone = false.
Proof. repeat split. Qed.

(** C5. For every label frame in which no row of [cm_highestinjury] is
    the string ["Fatal"], the binarizer returns, without raising, the
    vector of zeros over the same rows. *)
Theorem binarize_all_zero {I : Type} (y : frame I pyobj) (col : list pyobj) :
  column y "cm_highestinjury" = Some col ->
  List.Forall (fun x => x <> PyStr "Fatal") col ->
  binarize y = Ok (Series (index y) (replicate (length col) 0%Z)).
Proof.
  intros Hc Hno. rewrite (binarize_column y col Hc).
  assert (E : map (fun v => Z.b2z (is_fatal v)) col = replicate (length col) 0%Z).
  { clear Hc. induction Hno as [|x rest Hx Hrest IH]; simpl; [reflexivity|].
    rewrite IH. destruct (is_fatal x) eqn:E; [|reflexivity].
    apply is_fatal_iff in E. contradiction. }
  now rewrite E.
Qed.

Lemma binarize_all_zero_witness :
  List.Forall (fun x => x <> PyStr "Fatal")
    [PyStr "fatal"; PyStr "FATAL"; PyStr "Fatal "; PyStr "Serious"; PyFloat nan] /\
  binarize misspelled_labels = Ok (Series [0; 1; 2; 3; 4]%Z [0; 0; 0; 0; 0]%Z).
Proof.
  assert (H : List.Forall (fun x => x <> PyStr "Fatal")
    [PyStr "fatal"; PyStr "FATAL"; PyStr "Fatal "; PyStr "Serious"; PyFloat nan])
    by (repeat constructor; discriminate).
  split; [exact H|].
  exact (binarize_all_zero misspelled_labels _ eq_refl H).
Defined.

Lemma count_if_nonfatal (col : list pyobj) :
  count_if (Z.eqb 0) (map (fun v => Z.b2z (is_fatal v)) col) =
  count_if (fun v => negb (is_fatal v)) col.
Proof.
  rewrite count_if_map. apply count_if_ext. intros x. now destruct (is_fatal x).
Qed.

(** C10. For every label frame with the column [cm_highestinjury], the
    baseline cell on the binarized test labels raises KeyError when every
    row is ["Fatal"] (also when there is no row), and it prints a value
    only when some row is not ["Fatal"]; it then prints the share of the
    rows that are not ["Fatal"]. *)
Theorem baseline_needs_nonfatal_row {I : Type} (labels : frame I pyobj)
  (col : list pyobj) :
  column labels "cm_highestinjury" = Some col ->
  exists y_test,
    binarize labels = Ok y_test /\
    (List.Forall (fun x => x = PyStr "Fatal") col ->
       baseline_accuracy y_test = Raise KeyError) /\
    (forall b, baseline_accuracy y_test = Ok b ->
       List.Exists (fun x => x <> PyStr "Fatal") col) /\
    (List.Exists (fun x => x <> PyStr "Fatal") col ->
       baseline_accuracy y_test =
       Ok (proportion (count_if (fun x => negb (is_fatal x)) col) (length col))).
Proof.
  intros Hc. eexists. split; [exact (binarize_column labels col Hc)|].
  unfold baseline_accuracy. rewrite getitem_value_counts. simpl.
  rewrite count_if_nonfatal, length_map.
  assert (Hall : List.Forall (fun x => x = PyStr "Fatal") col ->
                 count_if (fun v => negb (is_fatal v)) col = 0%nat).
  { intros H. apply count_if_none. eapply List.Forall_impl; [|exact H].
    intros x ->. reflexivity. }
  assert (Hex : count_if (fun v => negb (is_fatal v)) col <> 0%nat <->
                List.Exists (fun x => x <> PyStr "Fatal") col).
  { rewrite count_if_zero_iff. split.
    - intros Hn. apply List.Exists_exists.
      destruct (List.Forall_Exists_dec (fun x => negb (is_fatal x) = false)
                  (fun x => bool_dec (negb (is_fatal x)) false) col)
        as [Hf|He]; [contradiction|].
      apply List.Exists_exists in He. destruct He as [x [Hin Hx]].
      exists x. split; [exact Hin|]. intros ->. apply Hx. reflexivity.
    - intros He Hf. apply List.Exists_exists in He. destruct He as [x [Hin Hx]].
      rewrite List.Forall_forall in Hf. specialize (Hf x Hin).
      apply negb_false_iff, is_fatal_iff in Hf. contradiction. }
  repeat split.
  - intros H. now rewrite (Hall H).
  - intros b Hb. apply Hex. intros Hz. rewrite Hz in Hb. discriminate.
  - intros He. apply Hex in He. apply Nat.eqb_neq in He. now rewrite He.
Qed.

Lemma baseline_needs_nonfatal_row_witness :
  column fatal_majority_labels "cm_highestinjury" =
    Some [PyStr "Fatal"; PyStr "Fatal"; PyStr "Minor"] /\
  exists y_test,
    binarize fatal_majority_labels = Ok y_test /\
    baseline_accuracy y_test = Ok (proportion 1 3).
Proof.
  split; [reflexivity|].
  destruct (baseline_needs_nonfatal_row fatal_majority_labels
              [PyStr "Fatal"; PyStr "Fatal"; PyStr "Minor"] eq_refl)
    as [y_test [H1 [_ [_ H4]]]].
  exists y_test. split; [exact H1|]. apply H4.
  right. right. left. discriminate.
Defined.

(** A test set in which every report is fatal: the cell raises. *)
Example baseline_all_fatal :
  let labels := Frame [0; 1]%Z [("cm_highestinjury", [PyStr "Fatal"; PyStr "Fatal"])] in
  rbind (binarize labels) baseline_accuracy = Raise KeyError.
Proof. reflexivity. Qed.

(** When class 0 is at least as frequent as class 1 and occurs, the printed
    value is the majority share. *)
Lemma baseline_majority_when_nonfatal_leads {I : Type} (y_test : series I Z) :
  (0 < count_if (Z.eqb 0) (s_values y_test))%nat ->
  (count_if (Z.eqb 1) (s_values y_test) <= count_if (Z.eqb 0) (s_values y_test))%nat ->
  baseline_accuracy y_test = Ok (majority_proportion (s_values y_test)).
Proof.
  intros Hpos Hle. unfold baseline_accuracy, majority_proportion.
  rewrite getitem_value_counts.
  destruct (Nat.eqb_neq (count_if (Z.eqb 0) (s_values y_test)) 0) as [_ ->]; [|lia].
  now rewrite Nat.max_l.
Qed.

(** C1. On the test labels [Fatal, Fatal, Minor] the fatal class is the
    majority: the binarized vector is [1, 1, 0], the cell prints the share
    of class 0, one third, while the majority share
    [max(count of 0s, count of 1s) / total rows] is two thirds. *)
Theorem baseline_is_class0_share_not_majority :
  exists y_test,
    binarize fatal_majority_labels = Ok y_test /\
    s_values y_test = [1; 1; 0]%Z /\
    value_counts_normalize y_test =
      Series [1; 0]%Z [0x1.5555555555555p-1; 0x1.5555555555555p-2] /\
    baseline_accuracy y_test = Ok 0x1.5555555555555p-2 /\
    majority_proportion (s_values y_test) = 0x1.5555555555555p-1 /\
    baseline_accuracy y_test <> Ok (majority_proportion (s_values y_test)).
Proof.
  eexists. split; [reflexivity|]. repeat split. intros H.
  apply (f_equal (fun r => match r with
                           | Ok x => PrimFloat.ltb x 0x1.8p-2
                           | Raise _ => false
                           end)) in H.
  vm_compute in H. discriminate.
Qed.

(** The toy scenario of the specification, as far as the notebook's own
    code goes: the binarized labels and the printed baseline. *)
Example toy_binarize_baseline :
  binarize toy_labels = Ok (Series [0; 1; 2; 3]%Z [1; 0; 1; 0]%Z) /\
  rbind (binarize toy_labels) baseline_accuracy = Ok 0.5.
Proof. split; reflexivity. Qed.

End LabelResults.

(* ===================================================================== *)
(** * The sparsifier: main result                                         *)
(* ===================================================================== *)

Section SparsifierResults.
Import Sparsifier.
Local Open Scope float_scope.

(** C3. For every dense frame (one cell per row in every column, at least
    one column), the sparsifier returns a coordinate matrix of the
    frame's shape whose stored triples are exactly the cells that are not
    zero, each at its own row and column; densifying it gives an array of
    the same shape in which every such cell is back unchanged and every
    other cell is the zero [0], so that each cell holds the number it held;
    the array is the original bit for bit when the original has no
    negative zero. *)
Theorem sparsify_roundtrip {I : Type} (X : frame I float) :
  rectangular X -> columns X <> [] ->
  exists m,
    sparsify X = Ok m /\
    shape m = frame_shape X /\
    (forall i j v, In (i, j, v) (coo_triples m) <->
                   cell X i j = Some v /\ PrimFloat.eqb v 0 = false) /\
    toarray m = map (map stored_value) (to_numpy X) /\
    Forall2 (Forall2 same_value) (to_numpy X) (toarray m) /\
    (List.Forall (fun c => List.Forall (fun x => x <> (-0)%float) (snd c))
                 (columns X) ->
     toarray m = to_numpy X).
Proof.
  intros Hwf Hne. eexists. split; [now apply sparsify_value|].
  assert (Hm := sparsify_value X Hne).
  assert (Ht := toarray_sparsify X _ Hwf Hm).
  split; [reflexivity|]. split; [|split; [exact Ht|split]].
  - intros i j v. now apply coo_triples_sparsify.
  - rewrite Ht. apply Forall2_map_r. intros row.
    apply Forall2_map_r. apply same_value_stored.
  - intros Hnz. rewrite Ht. unfold to_numpy.
    rewrite map_map. apply map_ext. intros i.
    rewrite map_map. apply map_ext_in. intros c Hc.
    apply stored_value_id.
    rewrite List.Forall_forall in Hnz. specialize (Hnz c Hc).
    rewrite List.Forall_forall in Hnz.
    destruct (nth_in_or_default i (snd c) 0) as [Hin | ->].
    + now apply Hnz.
    + intros H. apply (f_equal (fun x => PrimFloat.ltb (1 / x) 0)) in H.
      vm_compute in H. discriminate.
Qed.

Lemma sparsify_roundtrip_witness :
  rectangular toy_dense /\
  exists m, sparsify toy_dense = Ok m /\
            toarray m = [[0.5; 0; 1]; [0; 0; 0.25]].
Proof.
  assert (Hwf : rectangular toy_dense) by (repeat constructor).
  split; [exact Hwf|].
  assert (Hne : columns toy_dense <> []) by discriminate.
  destruct (sparsify_roundtrip toy_dense Hwf Hne) as [m [H1 [_ [_ [H4 _]]]]].
  exists m. split; [exact H1 | exact H4].
Defined.

(** A frame without columns cannot be converted. *)
Example sparsify_no_column_raises :
  sparsify (Frame [0; 1]%Z []) = Raise ValueError.
Proof. reflexivity. Qed.

(** The negative zero is the one cell that does not come back bit for bit:
    it equals the fill value, is not stored, and comes back as [0]. *)
Example negative_zero_comes_back_positive :
  rbind (sparsify (Frame [0%Z] [("w", [(-0)%float])])) (fun m => Ok (toarray m)) =
  Ok [[0]].
Proof. reflexivity. Qed.

End SparsifierResults.

(* ===================================================================== *)
(** * The weight inspector: main results                                  *)
(* ===================================================================== *)

Section InspectorResults.
Import Inspector.
Local Open Scope float_scope.

(** C4, as the code has it. For every fitted weight vector with one weight
    per column of the training frame, every table the cell can show is the
    first 30 rows (all rows when there are fewer) of a reordering of the
    table of column labels and weights: the shown rows whose weight is a
    number come first in descending order of weight, rows whose weight is
    NaN follow, and no row left out has a number as weight that exceeds a
    shown weight.  The order among rows of equal weight is not fixed. *)
Theorem inspect_top30_descending (coef : list float) (cols : list string)
  (top : list (string * float)) :
  inspect coef cols top ->
  length coef = length cols /\
  exists sorted,
    sort_values_desc (zip cols coef) sorted /\
    top = head 30 sorted /\
    length top = Nat.min 30 (length cols) /\
    Permutation (zip cols coef) (top ++ drop 30 sorted) /\
    (exists body tail,
        top = body ++ tail /\
        StronglySorted desc body /\
        List.Forall (fun r => num_row r = true) body /\
        List.Forall (fun r => nan_row r = true) tail) /\
    (forall a b, In a top -> In b (drop 30 sorted) ->
                 num_row b = true -> num_row a = true /\ desc a b).
Proof.
  intros H. destruct (inspect_rows coef cols top H) as [Hlen [sorted [Hs ->]]].
  split; [exact Hlen|]. exists sorted.
  destruct (sort_values_head _ _ Hs) as [H1 [H2 [H3 H4]]].
  split; [exact Hs|]. split; [reflexivity|].
  split; [|split; [exact H2|split; [exact H3|exact H4]]].
  rewrite H1. f_equal. rewrite length_zip. lia.
Qed.

Lemma inspect_top30_descending_witness :
  inspect toy_coef toy_cols [("radar", 3); ("make_Dix", 2); ("airframe", 1)] /\
  length toy_coef = length toy_cols.
Proof.
  assert (H : inspect toy_coef toy_cols
                [("radar", 3); ("make_Dix", 2); ("airframe", 1)]).
  { apply (inspect_intro toy_coef toy_cols
             [("radar", 3); ("make_Dix", 2); ("airframe", 1)] eq_refl).
    apply (stable_sort_admissible (zip toy_cols toy_coef)). }
  split; [exact H|].
  exact (proj1 (inspect_top30_descending toy_coef toy_cols _ H)).
Defined.

(** The cell shows a table for every weight vector that has one weight per
    column. *)
Lemma inspect_total (coef : list float) (cols : list string) :
  length coef = length cols -> exists top, inspect coef cols top.
Proof.
  intros E. exists (head 30 (stable_sort_desc (zip cols coef))).
  apply (inspect_intro coef cols _ E). apply stable_sort_admissible.
Qed.

(** Thirty-one features of equal weight: the table in reverse column order
    is a result of the sort as called, and its first 30 rows are not the
    first 30 columns in their original order. *)
Lemma tied_weights_order_not_kept :
  exists top,
    inspect tied_coef tied_cols top /\
    top <> head 30 (stable_sort_desc (zip tied_cols tied_coef)).
Proof.
  exists (head 30 (rev tied_rows)). split.
  - apply (inspect_intro tied_coef tied_cols (rev tied_rows) eq_refl).
    exists (rev tied_rows), []. split; [|split; [|split]].
    + symmetry. apply app_nil_r.
    + change (List.filter num_row (zip tied_cols tied_coef)) with tied_rows.
      apply Permutation_rev.
    + change (List.filter nan_row (zip tied_cols tied_coef))
        with (@nil (string * float)).
      constructor.
    + apply (all_tied_sorted 0); [reflexivity|].
      apply List.Forall_forall. intros r Hr. apply in_rev in Hr.
      revert r Hr. apply List.Forall_forall. repeat constructor.
  - intros H.
    apply (f_equal (fun l => match l with
                             | (name, _) :: _ => String.eqb name "w30"
                             | [] => false
                             end)) in H.
    vm_compute in H. discriminate.
Qed.

End InspectorResults.

(* ===================================================================== *)
(** * The model selector: main result                                     *)
(* ===================================================================== *)

Section SelectorResults.
Import Sparsifier Baseline Selector.
Local Open Scope float_scope.

Variable Estimator : Type.
Variable fit : params -> coo_matrix -> list Z -> result Estimator.
Variable predict : Estimator -> coo_matrix -> result (list Z).
Variable kfold : nat -> coo_matrix -> list Z -> result (list cv_split).

Lemma score_share_right (e : Estimator) (X : coo_matrix) (y y_pred : list Z) :
  predict e X = Ok y_pred -> length y_pred = length y ->
  score _ predict e X y = Ok (share_right y y_pred).
Proof.
  intros Hp Hl. unfold score. rewrite Hp. cbn [rbind].
  rewrite Hl, Nat.eqb_refl. now rewrite accuracy_share_right.
Qed.

Lemma score_ok_inv (e : Estimator) (X : coo_matrix) (y : list Z) (v : float) :
  score _ predict e X y = Ok v ->
  exists y_pred, predict e X = Ok y_pred /\ length y_pred = length y /\
                 v = share_right y y_pred.
Proof.
  unfold score. destruct (predict e X) as [y_pred|]; cbn [rbind]; [|discriminate].
  destruct (Nat.eqb (length y_pred) (length y)) eqn:El; [|discriminate].
  intros H. exists y_pred. split; [reflexivity|]. split; [now apply Nat.eqb_eq|].
  rewrite <- accuracy_share_right.
  exact (f_equal (fun r => match r with Ok x => x | Raise _ => v end) (eq_sym H)).
Qed.

(** The score the search gives a configuration on a split is the one the
    spec describes. *)
Lemma fold_score_scored_on (p : params) (sp : cv_split) (v : float) :
  fold_score _ fit predict p sp = Some v <-> scored_on _ fit predict p sp v.
Proof.
  unfold fold_score, scored_on. split.
  - destruct (fit p (fst (fst sp)) (snd (fst sp))) as [e|]; [|discriminate].
    destruct (score _ predict e (fst (snd sp)) (snd (snd sp))) as [w|] eqn:Es;
      [|discriminate].
    intros H. destruct (score_ok_inv _ _ _ _ Es) as [y_pred [Hp [Hl Hw]]].
    exists e, y_pred. split; [reflexivity|]. split; [exact Hp|]. split; [exact Hl|].
    rewrite <- Hw.
    exact (f_equal (fun o => match o with Some x => x | None => v end) (eq_sym H)).
  - intros [e [y_pred [-> [Hp [Hl ->]]]]].
    now rewrite (score_share_right _ _ _ _ Hp Hl).
Qed.

Lemma mean_test_score_spec (p : params) (splits : list cv_split) (m : float) :
  mean_test_score _ fit predict p splits = Some m ->
  exists scores,
    Forall2 (scored_on _ fit predict p) splits scores /\
    m = fold_left PrimFloat.add scores 0 / float_of_nat (length scores).
Proof.
  unfold mean_test_score.
  destruct (mapM (fold_score _ fit predict p) splits) as [scores|] eqn:E;
    [|discriminate].
  intros H. exists scores. split.
  - apply mapM_Some_1 in E. eapply Forall2_impl; [exact E|].
    intros sp v. apply fold_score_scored_on.
  - exact (f_equal (fun o => match o with Some x => x | None => m end) (eq_sym H)).
Qed.

Lemma mean_test_score_some (p : params) (splits : list cv_split) :
  (forall sp, In sp splits -> exists v, scored_on _ fit predict p sp v) ->
  exists m, mean_test_score _ fit predict p splits = Some m.
Proof.
  intros H. unfold mean_test_score.
  destruct (mapM_is_Some_2 (fold_score _ fit predict p) splits) as [scores ->].
  - apply List.Forall_forall. intros sp Hsp. destruct (H sp Hsp) as [v Hv].
    exists v. now apply fold_score_scored_on.
  - simpl. eauto.
Qed.

(** The scores on splits whose validation parts have rows are numbers. *)
Lemma scores_numbers (p : params) (splits : list cv_split) (scores : list float) :
  Forall2 (scored_on _ fit predict p) splits scores ->
  (forall sp, In sp splits ->
              snd (snd sp) <> [] /\
              (Z.of_nat (length (snd (snd sp))) < 2 ^ 53)%Z) ->
  List.Forall (fun v => SFnonneg (Prim2SF v)) scores.
Proof.
  induction 1 as [|sp v l1' l2' Hv _ IH]; intros Hrows; constructor.
  - destruct Hv as [e [y_pred [_ [_ [_ ->]]]]].
    apply share_right_number; apply (Hrows sp); now left.
  - apply IH. intros sp' Hsp. apply Hrows. now right.
Qed.

(** When every fit and scoring of the cross-validation returns, the search
    has a table: the configurations in their order, each with its mean
    score. *)
Lemma cv_results_some (cands : list params) (splits : list cv_split) :
  (forall p sp, In p cands -> In sp splits ->
                exists v, scored_on _ fit predict p sp v) ->
  exists results,
    cv_results _ fit predict cands splits = Some results /\
    map fst results = cands /\
    forall p m, In (p, m) results ->
                mean_test_score _ fit predict p splits = Some m.
Proof.
  intros H. unfold cv_results.
  induction cands as [|p cands IH].
  - exists []. split; [reflexivity|]. split; [reflexivity|]. intros p m [].
  - destruct IH as [results [Hr [Hfst Hin]]].
    { intros q sp Hq. apply H. now right. }
    destruct (mean_test_score_some p splits) as [m Hm].
    { intros sp. apply H. now left. }
    exists ((p, m) :: results). cbn. rewrite Hm. cbn. rewrite Hr. cbn.
    split; [reflexivity|]. split; [now rewrite Hfst|].
    intros q n [Heq|Hq]; [|now apply Hin].
    replace q with p by exact (f_equal fst Heq).
    replace n with m by exact (f_equal snd Heq). exact Hm.
Qed.

(** C6. Take any classifier and fold splitter.  When the splitter cuts the
    training data into at least one split, every validation part has a
    row (counts stay below 2^53, where a count is a [float64] exactly),
    and, for every configuration of the grid and every split, the fit on
    the training part and the prediction of the validation part return,
    the search has a table that lists the ten configurations of the grid
    [{l1, l2} x {0.01, 0.1, 1, 10, 100}] (every strength positive), each
    with the mean over the five-fold splits of its scores, the score on a
    split being the share of the validation rows that the model fitted on
    the training part predicts right, and the mean their sum over their
    number.  Every mean is a number.  The selected entry is in the table,
    every mean is at most its mean, and every entry before it has a mean
    below its mean: it is the first configuration with the highest mean
    score.  The cell then fits the selected configuration on the whole
    training set: an exception of that fit is the cell's; after it the
    cell predicts the training rows, then the test rows, with that
    estimator, raising what a prediction raises and ValueError when there
    is not one prediction per label; and when the fit and the two
    predictions return, the cell returns the search with that estimator,
    the share of the training rows and the share of the test rows it
    predicts right. *)
Theorem grid_search_selects_best (X_train : coo_matrix) (y_train : list Z)
  (X_test : coo_matrix) (y_test : list Z) (splits : list cv_split) :
  kfold 5 X_train y_train = Ok splits ->
  splits <> [] -> (Z.of_nat (length splits) < 2 ^ 53)%Z ->
  (forall sp, In sp splits ->
              snd (snd sp) <> [] /\
              (Z.of_nat (length (snd (snd sp))) < 2 ^ 53)%Z) ->
  (forall p sp, In p (ParameterGrid logreg_params) -> In sp splits ->
                exists v, scored_on _ fit predict p sp v) ->
  exists results i best m_best,
    map fst results = ParameterGrid logreg_params /\
    length (ParameterGrid logreg_params) = 10%nat /\
    (forall p, In p (ParameterGrid logreg_params) <->
               In (p_penalty p) [l1; l2] /\
               In (p_C p) [0x1.47ae147ae147bp-7; 0x1.999999999999ap-4; 1; 10; 100]) /\
    List.Forall (fun p => PrimFloat.ltb 0 (p_C p) = true)
                (ParameterGrid logreg_params) /\
    (forall p m, In (p, m) results ->
       exists scores,
         Forall2 (scored_on _ fit predict p) splits scores /\
         m = fold_left PrimFloat.add scores 0 / float_of_nat (length scores)) /\
    (forall p m, In (p, m) results -> PrimFloat.is_nan m = false) /\
    results !! i = Some (best, m_best) /\
    (forall p m, In (p, m) results -> PrimFloat.leb m m_best = true) /\
    (forall j p m, (j < i)%nat -> results !! j = Some (p, m) ->
                   PrimFloat.ltb m m_best = true) /\
    (forall e, fit best X_train y_train = Raise e ->
       select_and_score _ fit predict kfold X_train y_train X_test y_test = Raise e) /\
    (forall est,
       fit best X_train y_train = Ok est ->
       select_and_score _ fit predict kfold X_train y_train X_test y_test =
         (let! p_train := predict est X_train in
          let! train_accuracy :=
            if Nat.eqb (length p_train) (length y_train)
            then Ok (share_right y_train p_train) else Raise ValueError in
          let! p_test := predict est X_test in
          let! test_accuracy :=
            if Nat.eqb (length p_test) (length y_test)
            then Ok (share_right y_test p_test) else Raise ValueError in
          Ok (MkGridSearch _ results i best est, train_accuracy, test_accuracy))) /\
    (forall est p_train p_test,
       fit best X_train y_train = Ok est ->
       predict est X_train = Ok p_train -> length p_train = length y_train ->
       predict est X_test = Ok p_test -> length p_test = length y_test ->
       select_and_score _ fit predict kfold X_train y_train X_test y_test =
         Ok (MkGridSearch _ results i best est,
             share_right y_train p_train, share_right y_test p_test)).
Proof.
  intros Hk Hsome Hcount Hrows Hfits.
  destruct (cv_results_some _ splits Hfits) as [results [Hr [Hfst Hin]]].
  assert (Hnan : forall p m, In (p, m) results -> PrimFloat.is_nan m = false).
  { intros p m Hpm.
    destruct (mean_test_score_spec _ _ _ (Hin p m Hpm)) as [scores [Hs ->]].
    apply nonneg_not_nan.
    pose proof (Forall2_length _ _ _ Hs) as Hl.
    apply mean_number.
    - destruct splits; [congruence|]. destruct scores; [discriminate Hl|discriminate].
    - now rewrite <- Hl.
    - now apply (scores_numbers p splits). }
  set (means := map snd results).
  assert (Hlen : length results = 10%nat).
  { rewrite <- (length_map fst), Hfst. reflexivity. }
  assert (Hne : means <> []).
  { unfold means. destruct results; [discriminate|]. discriminate. }
  destruct (argmax_first_spec means Hne) as [m_best [Hv Hmax]].
  set (i := argmax_first means) in *.
  assert (Hi : exists best, results !! i = Some (best, m_best)).
  { unfold means in Hv. rewrite lookup_map in Hv.
    destruct (results !! i) as [[best m]|] eqn:E; [|discriminate].
    exists best. simpl in Hv. f_equal. f_equal.
    exact (f_equal (fun o => match o with Some x => x | None => m end) Hv). }
  destruct Hi as [best Hi].
  assert (Hbest : nth i (ParameterGrid logreg_params)
                      (MkParams l1 0x1.47ae147ae147bp-7) = best).
  { apply nth_lookup_Some. rewrite <- Hfst. rewrite lookup_map, Hi. reflexivity. }
  assert (Hgrid : grid_fit _ fit predict kfold logreg_params X_train y_train =
                  obind (fit best X_train y_train)
                        (fun e => Ok (MkGridSearch _ results i best e))).
  { unfold grid_fit. rewrite logreg_grid_points. rewrite Hk. cbn [obind].
    rewrite <- logreg_grid_points, Hr. cbv zeta. fold means. fold i.
    rewrite logreg_grid_points in Hbest |- *. now rewrite Hbest. }
  exists results, i, best, m_best.
  split; [exact Hfst|]. split; [reflexivity|].
  split; [intros p; apply (in_parameter_grid logreg_params p)|].
  split; [rewrite logreg_grid_points; repeat constructor|].
  split; [intros p m Hpm; now apply mean_test_score_spec, Hin|].
  split; [exact Hnan|].
  split; [exact Hi|].
  assert (Hselect :
    (forall p m, In (p, m) results -> PrimFloat.leb m m_best = true) /\
    (forall j p m, (j < i)%nat -> results !! j = Some (p, m) ->
                   PrimFloat.ltb m m_best = true)).
  { destruct (argmax_first_first means Hne) as [v [Hv' [Hle Hlt]]].
    { intros x Hx. unfold means in Hx. apply in_map_iff in Hx.
      destruct Hx as [[p m] [<- Hpm]]. eapply Hnan; eauto. }
    fold i in Hv', Hlt. rewrite Hv in Hv'.
    assert (Hvv : forall x, PrimFloat.leb x v = PrimFloat.leb x m_best)
      by (intros x;
          exact (f_equal (fun o => match o with
                                   | Some w => PrimFloat.leb x w
                                   | None => false end) (eq_sym Hv'))).
    assert (Hvl : forall x, PrimFloat.ltb x v = PrimFloat.ltb x m_best)
      by (intros x;
          exact (f_equal (fun o => match o with
                                   | Some w => PrimFloat.ltb x w
                                   | None => false end) (eq_sym Hv'))).
    split.
    - intros p m Hpm. rewrite <- Hvv. apply Hle. unfold means.
      apply in_map_iff. exists (p, m). auto.
    - intros j p m Hj Hjm. rewrite <- Hvl. apply (Hlt j m Hj).
      unfold means. rewrite lookup_map, Hjm. reflexivity. }
  split; [exact (proj1 Hselect)|]. split; [exact (proj2 Hselect)|].
  split.
  { intros e He. unfold select_and_score. rewrite Hgrid, He. reflexivity. }
  split.
  { intros est He. unfold select_and_score, grid_score, score.
    rewrite Hgrid, He. cbn [obind best_estimator_].
    destruct (predict est X_train) as [p_train|e]; cbn [rbind obind]; [|reflexivity].
    destruct (Nat.eqb (length p_train) (length y_train)); cbn [rbind obind];
      [|reflexivity].
    destruct (predict est X_test) as [p_test|e]; cbn [rbind obind]; [|reflexivity].
    destruct (Nat.eqb (length p_test) (length y_test)); cbn [rbind obind];
      [|reflexivity].
    now rewrite !accuracy_share_right. }
  intros est p_train p_test He Hp1 Hl1 Hp2 Hl2.
  unfold select_and_score, grid_score. rewrite Hgrid, He.
  cbn [obind best_estimator_].
  rewrite (score_share_right _ _ _ _ Hp1 Hl1). cbn [obind].
  rewrite (score_share_right _ _ _ _ Hp2 Hl2). reflexivity.
Qed.

End SelectorResults.

(* ===================================================================== *)
(** * A complete run on toy inputs                                        *)
(* ===================================================================== *)

Section ToyRun.
Import Sparsifier Selector Inspector Notebook.
Local Open Scope float_scope.

Lemma dense_frames_never_mutated_witness :
  exists s out,
    run _ (take 5 (notebook _ toy_fit toy_predict toy_coef_ toy_kfold))
          (cell_load _ toy_files (empty_store _)) = Ok (s, out) /\
    deref _ s "X_train_tfidf" = Some (ODense _ toy_train) /\
    out = [Print "The baseline accuracy is" 0.5;
           Print "Training accuracy:" 0.5;
           Print "Testing accuracy:" 0.5].
Proof.
  destruct (run _ (take 5 (notebook _ toy_fit toy_predict toy_coef_ toy_kfold))
                (cell_load _ toy_files (empty_store _)))
    as [[[s out]|e]|] eqn:E.
  - exists s, out. split; [reflexivity|]. split.
    + exact (proj1 (dense_frames_never_mutated toy_fit toy_predict toy_coef_
                      toy_kfold toy_files 5 s out E)).
    + vm_compute in E. injection E as _ <-. reflexivity.
  - exfalso. vm_compute in E. discriminate.
  - exfalso. vm_compute in E. discriminate.
Defined.

Lemma grid_search_selects_best_witness :
  sparsify toy_train = Ok toy_X_train /\
  sparsify toy_test = Ok toy_X_test /\
  exists gs,
    select_and_score _ toy_fit toy_predict toy_kfold
                     toy_X_train toy_y_train toy_X_test toy_y_test =
      Ok (gs, 0.5, 0.5) /\
    map fst (cv_results_ _ gs) = ParameterGrid logreg_params /\
    best_index_ _ gs = 0%nat /\
    cv_results_ _ gs !! 0%nat = Some (best_params_ _ gs, 0.5).
Proof.
  split; [reflexivity|]. split; [reflexivity|].
  destruct (grid_search_selects_best _ toy_fit toy_predict toy_kfold
              toy_X_train toy_y_train toy_X_test toy_y_test
              [((toy_X_train, toy_y_train), (toy_X_train, toy_y_train))])
    as [results [i [best [m_best
         [Hfst [_ [_ [_ [Hm [_ [Hi [_ [Hlt [_ [_ Hok]]]]]]]]]]]]]]].
  - reflexivity.
  - discriminate.
  - reflexivity.
  - intros sp [<-|[]]. split; [discriminate | reflexivity].
  - intros p sp _ [<-|[]]. exists 0.5, [1; 3; 2], [0; 0; 0; 0]%Z.
    split; [reflexivity|]. split; [reflexivity|]. split; reflexivity.
  - exists (MkGridSearch _ results i best [1; 3; 2]).
    cbn [cv_results_ best_index_ best_params_].
    assert (Hall : forall p m, In (p, m) results -> m = 0.5).
    { intros p m Hpm. destruct (Hm p m Hpm) as [scores [Hs ->]].
      inversion Hs as [|sp v l1' l2' Hv Hrest]; subst.
      inversion Hrest; subst.
      destruct Hv as [e [y_pred [_ [Hp [_ ->]]]]].
      vm_compute in Hp.
      replace y_pred with [0; 0; 0; 0]%Z
        by exact (f_equal (fun r => match r with Ok x => x | Raise _ => y_pred end) Hp).
      reflexivity. }
    split.
    { rewrite (Hok [1; 3; 2] [0; 0; 0; 0]%Z [0; 0]%Z eq_refl eq_refl eq_refl
                   eq_refl eq_refl). reflexivity. }
    split; [exact Hfst|].
    assert (Hb : m_best = 0.5).
    { apply (Hall best). apply list_elem_of_In, list_elem_of_lookup. eauto. }
    assert (H0 : i = 0%nat).
    { destruct i as [|j]; [reflexivity|]. exfalso.
      destruct results as [|[p m] rest]; [discriminate|].
      assert (Hlow : PrimFloat.ltb m m_best = true)
        by (apply (Hlt 0%nat p m); [lia | reflexivity]).
      rewrite (Hall p m), Hb in Hlow by now left. vm_compute in Hlow.
      discriminate. }
    split; [exact H0|]. now rewrite <- H0, <- Hb.
Defined.

End ToyRun.

(* ===================================================================== *)
(** * Further properties of the label cells                               *)
(* ===================================================================== *)

Section LabelProperties.
Import Binarizer Baseline.

Lemma count_if_perm {A : Type} (p : A -> bool) (l l' : list A) :
  Permutation l l' -> count_if p l = count_if p l'.
Proof.
  induction 1 as [|x l l' _ IH|x y l|l l' l'' _ IH1 _ IH2]; simpl.
  - reflexivity.
  - now rewrite IH.
  - now destruct (p x), (p y).
  - congruence.
Qed.

Lemma count_if_pos_in (k : Z) (vals : list Z) :
  count_if (Z.eqb k) vals <> 0%nat -> In k vals.
Proof.
  induction vals as [|v vals IH]; simpl; [congruence|].
  destruct (Z.eqb k v) eqn:E; [apply Z.eqb_eq in E; auto | auto].
Qed.

Lemma insert_by_count_perm e tbl : Permutation (e :: tbl) (insert_by_count e tbl).
Proof.
  induction tbl as [|x rest IH]; simpl; [reflexivity|].
  destruct (Nat.leb (snd x) (snd e)); [reflexivity|].
  etransitivity; [apply perm_swap|]. now constructor.
Qed.

Lemma sort_by_count_perm tbl : Permutation tbl (sort_by_count tbl).
Proof.
  induction tbl as [|e rest IH]; simpl; [constructor|].
  etransitivity; [|apply insert_by_count_perm]. now constructor.
Qed.

Lemma insert_by_count_sorted e tbl :
  StronglySorted by_count_desc tbl ->
  StronglySorted by_count_desc (insert_by_count e tbl).
Proof.
  induction tbl as [|x rest IH]; simpl; intros Hs.
  - repeat constructor.
  - apply StronglySorted_inv in Hs. destruct Hs as [Hs Hx].
    destruct (Nat.leb (snd x) (snd e)) eqn:E.
    + apply Nat.leb_le in E. constructor; [now constructor|].
      constructor; [exact E|].
      eapply List.Forall_impl; [|exact Hx].
      intros y Hy. unfold by_count_desc in *. lia.
    + apply Nat.leb_gt in E. constructor; [now apply IH|].
      eapply Permutation_Forall; [apply insert_by_count_perm|].
      constructor; [unfold by_count_desc; lia | exact Hx].
Qed.

Lemma sort_by_count_sorted tbl : StronglySorted by_count_desc (sort_by_count tbl).
Proof.
  induction tbl as [|e rest IH]; simpl; [constructor|].
  now apply insert_by_count_sorted.
Qed.

Lemma assoc_in k c tbl : assoc k tbl = Some c -> In (k, c) tbl.
Proof.
  induction tbl as [|[k' c'] rest IH]; simpl; [discriminate|].
  destruct (Z.eqb k' k) eqn:E.
  - intros H. injection H as ->. apply Z.eqb_eq in E. subst. now left.
  - intros H. right. now apply IH.
Qed.

Lemma in_assoc k c tbl : distinct_keys tbl -> In (k, c) tbl -> assoc k tbl = Some c.
Proof.
  induction tbl as [|[k' c'] rest IH]; simpl; [contradiction|].
  intros [Hn Hd] [Heq|Hin].
  - injection Heq as -> ->. now rewrite Z.eqb_refl.
  - destruct (Z.eqb k' k) eqn:E; [|now apply IH].
    apply Z.eqb_eq in E. subst k'. simpl in Hn.
    rewrite (IH Hd Hin) in Hn. discriminate.
Qed.

(** The first row of the count table is a most frequent value. *)
Lemma value_counts_head (vals : list Z) :
  vals <> [] ->
  exists k rest,
    sort_by_count (value_counts_arraylike vals) =
      (k, count_if (Z.eqb k) vals) :: rest /\
    In k vals /\
    forall k', (count_if (Z.eqb k') vals <= count_if (Z.eqb k) vals)%nat.
Proof.
  intros Hne.
  pose proof (sort_by_count_sorted (value_counts_arraylike vals)) as Hs.
  pose proof (sort_by_count_perm (value_counts_arraylike vals)) as Hp.
  pose proof (table_total_sort (value_counts_arraylike vals)) as Ht.
  rewrite table_total_value_counts in Ht.
  destruct (sort_by_count (value_counts_arraylike vals)) as [|[k c] rest] eqn:E.
  { simpl in Ht. destruct vals; [congruence | discriminate]. }
  assert (Hk : assoc k (value_counts_arraylike vals) = Some c).
  { apply in_assoc; [apply distinct_keys_value_counts|].
    eapply Permutation_in; [symmetry; exact Hp | now left]. }
  rewrite assoc_value_counts in Hk.
  destruct (Nat.eqb (count_if (Z.eqb k) vals) 0%nat) eqn:Ez; [discriminate|].
  injection Hk as <-. apply Nat.eqb_neq in Ez.
  exists k, rest. split; [reflexivity|]. split; [now apply count_if_pos_in|].
  intros k'. destruct (Nat.eq_dec (count_if (Z.eqb k') vals) 0%nat) as [->|Hz]; [lia|].
  assert (Hk' : In (k', count_if (Z.eqb k') vals)
                   ((k, count_if (Z.eqb k) vals) :: rest)).
  { rewrite <- E. apply assoc_in.
    rewrite assoc_sort_by_count by apply distinct_keys_value_counts.
    rewrite assoc_value_counts.
    now destruct (Nat.eqb_neq (count_if (Z.eqb k') vals) 0%nat) as [_ ->]. }
  destruct Hk' as [Heq|Hin].
  - injection Heq as -> _. lia.
  - apply StronglySorted_inv in Hs. destruct Hs as [_ Hf].
    rewrite List.Forall_forall in Hf. apply (Hf _ Hin).
Qed.

(** X1. The binarizer reads the row labels and the column
    [cm_highestinjury] and nothing else: two label frames that agree on
    these give the same outcome, whatever their other columns; and the
    outcome is the AttributeError exactly when that column is missing. *)
Theorem binarize_reads_one_column {I : Type} (y y' : frame I pyobj) :
  index y = index y' ->
  column y "cm_highestinjury" = column y' "cm_highestinjury" ->
  binarize y = binarize y' /\
  (binarize y = Raise AttributeError <-> column y "cm_highestinjury" = None) /\
  (forall e, binarize y = Raise e -> e = AttributeError).
Proof.
  intros Hi Hc.
  destruct (column y "cm_highestinjury") as [col|] eqn:E.
  - rewrite (binarize_column y col E), (binarize_column y' col (eq_sym Hc)), Hi.
    repeat split; discriminate.
  - rewrite (binarize_no_column y E), (binarize_no_column y' (eq_sym Hc)).
    repeat split; congruence.
Qed.

Lemma binarize_reads_one_column_witness :
  binarize toy_labels =
  binarize (Frame [0; 1; 2; 3]%Z
              [("ev_id", [PyInt 7; PyInt 8; PyInt 9; PyNone]);
               ("cm_highestinjury",
                [PyStr "Fatal"; PyStr "Minor"; PyStr "Fatal"; PyStr "Minor"])]).
Proof.
  exact (proj1 (binarize_reads_one_column toy_labels _ eq_refl eq_refl)).
Defined.

(** X2. Whenever the test labels have at least one row, the first row of
    the table [value_counts(normalize=True)] of the binarized labels holds
    the majority share [max(count of 0s, count of 1s) / total rows]. *)
Theorem value_counts_first_row_is_majority {I : Type} (y : frame I pyobj)
  (col : list pyobj) :
  column y "cm_highestinjury" = Some col -> col <> [] ->
  exists y_test,
    binarize y = Ok y_test /\
    hd_error (s_values (value_counts_normalize y_test)) =
      Some (majority_proportion (s_values y_test)).
Proof.
  intros Hc Hne. eexists. split; [exact (binarize_column y col Hc)|].
  cbn [s_values]. set (vals := map (fun v => Z.b2z (is_fatal v)) col).
  assert (Hv : vals <> []) by (unfold vals; destruct col; [congruence | discriminate]).
  destruct (value_counts_head vals Hv) as [k [rest [E [Hk Hmax]]]].
  unfold value_counts_normalize. cbv zeta. cbn [s_values]. fold vals.
  change (fold_right (fun e acc => (snd e + acc)%nat) 0%nat) with table_total.
  rewrite table_total_sort, table_total_value_counts, E. cbn [map hd_error snd].
  unfold majority_proportion. do 2 f_equal.
  assert (Hk01 : k = 0%Z \/ k = 1%Z).
  { unfold vals in Hk. apply in_map_iff in Hk. destruct Hk as [x [<- _]].
    destruct (is_fatal x); auto. }
  pose proof (Hmax 0%Z) as H0. pose proof (Hmax 1%Z) as H1.
  destruct Hk01 as [-> | ->]; lia.
Qed.

Lemma value_counts_first_row_is_majority_witness :
  exists y_test,
    binarize fatal_majority_labels = Ok y_test /\
    hd_error (s_values (value_counts_normalize y_test)) =
      Some (majority_proportion (s_values y_test)).
Proof.
  apply (value_counts_first_row_is_majority fatal_majority_labels
           [PyStr "Fatal"; PyStr "Fatal"; PyStr "Minor"] eq_refl).
  discriminate.
Defined.

(** X3. The printed baseline does not depend on the order of the test
    rows: two label vectors that are rearrangements of one another give
    the same outcome, value or KeyError. *)
Theorem baseline_ignores_row_order {I J : Type} (a : series I Z) (b : series J Z) :
  Permutation (s_values a) (s_values b) ->
  baseline_accuracy a = baseline_accuracy b.
Proof.
  intros Hp. unfold baseline_accuracy. rewrite !getitem_value_counts.
  now rewrite (count_if_perm _ _ _ Hp), (Permutation_length Hp).
Qed.

Lemma baseline_ignores_row_order_witness :
  baseline_accuracy (Series [0; 1; 2]%Z [1; 0; 0]%Z) =
  baseline_accuracy (Series [5; 6; 7]%Z [0; 1; 0]%Z).
Proof.
  apply (baseline_ignores_row_order (Series [0; 1; 2]%Z [1; 0; 0]%Z)
                                    (Series [5; 6; 7]%Z [0; 1; 0]%Z)).
  apply perm_swap.
Defined.

End LabelProperties.

(* ===================================================================== *)
(** * Further properties of the sparsifier                                *)
(* ===================================================================== *)

Section SparsifierProperties.
Import Sparsifier.
Local Open Scope float_scope.

Lemma sparsify_inv {I : Type} (X : frame I float) (m : coo_matrix) :
  sparsify X = Ok m ->
  m = MkCoo (frame_shape X)
            (map t_row (all_triples 0 (columns X)))
            (map t_col (all_triples 0 (columns X)))
            (map t_val (all_triples 0 (columns X))).
Proof.
  intros Hm. rewrite (sparsify_value X (sparsify_ok_columns X m Hm)) in Hm.
  now injection Hm as <-.
Qed.

Lemma length_sparse_entries fill k a :
  length (sparse_entries fill k a) = count_if (kept fill) a.
Proof.
  revert k. induction a as [|x rest IH]; intros k; simpl; [reflexivity|].
  destruct (kept fill x); simpl; now rewrite IH.
Qed.

Lemma length_all_triples j (cols : list (string * list float)) :
  length (all_triples j cols) =
  fold_right (fun c acc =>
                (count_if (fun x => negb (PrimFloat.eqb x 0)) (snd c) + acc)%nat)
             0%nat cols.
Proof.
  revert j. induction cols as [|c rest IH]; intros j; simpl; [reflexivity|].
  rewrite length_app, IH. unfold col_triples.
  now rewrite length_map, length_sparse_entries.
Qed.

Lemma count_if_le {A : Type} (p : A -> bool) (l : list A) :
  (count_if p l <= length l)%nat.
Proof. induction l as [|x l IH]; simpl; [lia|]. destruct (p x); lia. Qed.

Lemma nnz_le_cells {I : Type} (X : frame I float) :
  rectangular X -> (nnz X <= n_rows X * n_cols X)%nat.
Proof.
  unfold rectangular, nnz, n_cols. generalize (n_rows X). intros r Hr.
  induction Hr as [|c rest Hc _ IH]; simpl; [lia|].
  pose proof (count_if_le (fun x => negb (PrimFloat.eqb x 0)) (snd c)). lia.
Qed.

(** X4. The sparsifier returns a matrix exactly when the frame has at
    least one column, whatever its cells are (NaN and infinities
    included); the matrix then has the frame's shape, also for a frame
    without rows; on a frame without columns the outcome is ValueError,
    and no other exception occurs. *)
Theorem sparsify_needs_a_column {I : Type} (X : frame I float) :
  ((exists m, sparsify X = Ok m) <-> columns X <> []) /\
  (forall m, sparsify X = Ok m -> shape m = frame_shape X) /\
  (forall e, sparsify X = Raise e -> e = ValueError /\ columns X = []).
Proof.
  split; [|split].
  - split.
    + intros [m Hm]. now apply (sparsify_ok_columns X m).
    + intros Hne. eexists. now apply sparsify_value.
  - intros m Hm. now rewrite (sparsify_inv X m Hm).
  - intros e He. destruct (columns X) as [|c rest] eqn:E.
    + rewrite (sparsify_no_column X E) in He. now injection He as <-.
    + rewrite sparsify_value in He by (rewrite E; discriminate). discriminate.
Qed.

(** X5. The three arrays of the coordinate matrix have one entry per cell
    of the frame that differs from zero, no more and no fewer, and no
    stored value is a zero; on a rectangular frame that is at most the
    number of cells. *)
Theorem coo_stores_nonzero_cells_only {I : Type} (X : frame I float)
  (m : coo_matrix) :
  sparsify X = Ok m ->
  length (coo_row m) = nnz X /\
  length (coo_col m) = nnz X /\
  length (coo_data m) = nnz X /\
  List.Forall (fun v => PrimFloat.eqb v 0 = false) (coo_data m) /\
  (rectangular X -> (nnz X <= n_rows X * n_cols X)%nat).
Proof.
  intros Hm. rewrite (sparsify_inv X m Hm). cbn [coo_row coo_col coo_data].
  rewrite !length_map, length_all_triples. fold (nnz X).
  repeat split; [|apply nnz_le_cells].
  apply List.Forall_forall. intros v Hv. apply in_map_iff in Hv.
  destruct Hv as [[[i j] w] [<- Hin]].
  apply in_all_triples in Hin. destruct Hin as [_ [c [_ [_ Hk]]]].
  rewrite kept_zero in Hk. now apply negb_true_iff in Hk.
Qed.

Lemma coo_stores_nonzero_cells_only_witness :
  exists m, sparsify toy_train = Ok m /\ length (coo_data m) = 5%nat.
Proof.
  destruct (sparsify toy_train) as [m|e] eqn:E.
  - exists m. split; [reflexivity|].
    exact (proj1 (proj2 (proj2 (coo_stores_nonzero_cells_only toy_train m E)))).
  - exfalso. vm_compute in E. discriminate.
Defined.

(** X6. On a rectangular frame every stored coordinate lies inside the
    matrix: each row number is below the number of rows and each column
    number below the number of columns of its shape. *)
Theorem coo_coordinates_in_shape {I : Type} (X : frame I float) (m : coo_matrix) :
  rectangular X -> sparsify X = Ok m ->
  List.Forall (fun i => (i < fst (shape m))%nat) (coo_row m) /\
  List.Forall (fun j => (j < snd (shape m))%nat) (coo_col m).
Proof.
  intros Hr Hm. rewrite (sparsify_inv X m Hm). cbn [coo_row coo_col shape fst snd].
  unfold frame_shape. cbn [fst snd].
  assert (H : forall t, In t (all_triples 0 (columns X)) ->
                        (t_row t < n_rows X)%nat /\ (t_col t < n_cols X)%nat).
  { intros [[i j] v] Hin. apply in_all_triples in Hin.
    destruct Hin as [_ [c [Hc [Hv _]]]]. rewrite Nat.sub_0_r in Hc.
    unfold t_row, t_col. cbn [fst snd]. split.
    - unfold rectangular in Hr. rewrite List.Forall_forall in Hr.
      rewrite <- (Hr c); [eapply lookup_lt_Some; eauto|].
      apply list_elem_of_In, list_elem_of_lookup. eauto.
    - eapply lookup_lt_Some; eauto. }
  split; apply List.Forall_forall; intros x Hx; apply in_map_iff in Hx;
    destruct Hx as [t [<- Hin]]; now apply H.
Qed.

Lemma coo_coordinates_in_shape_witness :
  exists m, sparsify toy_train = Ok m /\
            List.Forall (fun i => (i < fst (shape m))%nat) (coo_row m).
Proof.
  assert (Hr : rectangular toy_train) by (repeat constructor).
  destruct (sparsify toy_train) as [m|e] eqn:E.
  - exists m. split; [reflexivity|].
    exact (proj1 (coo_coordinates_in_shape toy_train m Hr E)).
  - exfalso. vm_compute in E. discriminate.
Defined.

Lemma strongly_sorted_map {A B : Type} (R : A -> A -> Prop) (R' : B -> B -> Prop)
  (f : A -> B) (l : list A) :
  (forall a b, R a b -> R' (f a) (f b)) ->
  StronglySorted R l -> StronglySorted R' (map f l).
Proof.
  intros HR. induction 1 as [|x l _ IH Hx]; simpl; constructor; [exact IH|].
  apply List.Forall_forall. intros y Hy. apply in_map_iff in Hy.
  destruct Hy as [z [<- Hz]]. rewrite List.Forall_forall in Hx. auto.
Qed.

Lemma strongly_sorted_app_intro {A : Type} (R : A -> A -> Prop) (l1 l2 : list A) :
  StronglySorted R l1 -> StronglySorted R l2 ->
  (forall a b, In a l1 -> In b l2 -> R a b) ->
  StronglySorted R (l1 ++ l2).
Proof.
  intros H1 H2 H. induction H1 as [|x l1 _ IH Hx]; simpl; [exact H2|].
  constructor.
  - apply IH. intros a b Ha Hb. apply H; [now right | exact Hb].
  - apply Forall_app. split; [exact Hx|].
    apply List.Forall_forall. intros b Hb. apply H; [now left | exact Hb].
Qed.

Lemma sparse_entries_sorted fill k a :
  StronglySorted (fun e e' : nat * float => (fst e < fst e')%nat)
                 (sparse_entries fill k a) /\
  List.Forall (fun e : nat * float => (k <= fst e)%nat) (sparse_entries fill k a).
Proof.
  revert k. induction a as [|x rest IH]; intros k; simpl.
  - split; constructor.
  - destruct (IH (S k)) as [Hs Hb].
    assert (Hb' : List.Forall (fun e : nat * float => (k <= fst e)%nat)
                              (sparse_entries fill (S k) rest)).
    { eapply List.Forall_impl; [|exact Hb]. simpl. intros e He. lia. }
    destruct (kept fill x); [|split; assumption].
    split.
    + constructor; [exact Hs|].
      eapply List.Forall_impl; [|exact Hb]. simpl. intros e He. lia.
    + constructor; [simpl; lia | exact Hb'].
Qed.

Lemma col_triples_sorted j k a : StronglySorted coord_lt (col_triples j k a).
Proof.
  unfold col_triples.
  apply (strongly_sorted_map (fun e e' : nat * float => (fst e < fst e')%nat));
    [|apply sparse_entries_sorted].
  intros e e' H. right. unfold t_col, t_row. simpl. auto.
Qed.

Lemma col_triples_col j k a :
  List.Forall (fun t => t_col t = j) (col_triples j k a).
Proof.
  unfold col_triples. apply List.Forall_forall. intros t Ht.
  apply in_map_iff in Ht. now destruct Ht as [e [<- _]].
Qed.

Lemma all_triples_col_ge j (cols : list (string * list float)) :
  List.Forall (fun t => (j <= t_col t)%nat) (all_triples j cols).
Proof.
  revert j. induction cols as [|c rest IH]; intros j; simpl; [constructor|].
  apply Forall_app. split.
  - eapply List.Forall_impl; [|apply col_triples_col]. simpl. intros t ->. lia.
  - eapply List.Forall_impl; [|apply (IH (S j))]. simpl. intros t Ht. lia.
Qed.

Lemma all_triples_sorted j (cols : list (string * list float)) :
  StronglySorted coord_lt (all_triples j cols).
Proof.
  revert j. induction cols as [|c rest IH]; intros j; simpl; [constructor|].
  apply strongly_sorted_app_intro; [apply col_triples_sorted | apply IH |].
  intros a b Ha Hb. left.
  pose proof (col_triples_col j 0 (snd c)) as H1.
  pose proof (all_triples_col_ge (S j) rest) as H2.
  rewrite List.Forall_forall in H1, H2.
  rewrite (H1 a Ha). specialize (H2 b Hb). lia.
Qed.

Lemma zip_rows_cols (T : list (nat * nat * float)) :
  zip (map t_row T) (map t_col T) = map (fun t => (t_row t, t_col t)) T.
Proof. induction T as [|t T IH]; simpl; [reflexivity|]. now rewrite IH. Qed.

Lemma sorted_coordinates_nodup (T : list (nat * nat * float)) :
  StronglySorted coord_lt T -> NoDup (map (fun t => (t_row t, t_col t)) T).
Proof.
  induction 1 as [|x l _ IH Hx]; simpl; constructor; [|exact IH].
  intros Hin. apply list_elem_of_In, in_map_iff in Hin.
  destruct Hin as [y [Heq Hy]]. rewrite List.Forall_forall in Hx.
  specialize (Hx y Hy). injection Heq as Hr Hc.
  destruct Hx as [Hlt | [_ Hlt]]; lia.
Qed.

(** X7. The stored entries come in column-major order, by column and by
    row inside a column, each strictly after the one before; so no
    position of the matrix is stored twice, and densifying never adds two
    stored values into one cell. *)
Theorem coo_column_major_no_duplicates {I : Type} (X : frame I float)
  (m : coo_matrix) :
  sparsify X = Ok m ->
  StronglySorted coord_lt (coo_triples m) /\
  NoDup (zip (coo_row m) (coo_col m)).
Proof.
  intros Hm. rewrite (sparsify_inv X m Hm). unfold coo_triples.
  cbn [coo_row coo_col coo_data]. rewrite zip_triples, zip_rows_cols.
  split; [apply all_triples_sorted|].
  apply sorted_coordinates_nodup, all_triples_sorted.
Qed.

Lemma coo_column_major_no_duplicates_witness :
  exists m, sparsify toy_train = Ok m /\
            coo_triples m =
              [(0%nat, 0%nat, 0.5); (2%nat, 0%nat, 0.25); (2%nat, 1%nat, 0.75);
               (0%nat, 2%nat, 1); (3%nat, 2%nat, 1)] /\
            NoDup (zip (coo_row m) (coo_col m)).
Proof.
  destruct (sparsify toy_train) as [m|e] eqn:E.
  - exists m. split; [reflexivity|]. split.
    + vm_compute in E. injection E as <-. reflexivity.
    + exact (proj2 (coo_column_major_no_duplicates toy_train m E)).
  - exfalso. vm_compute in E. discriminate.
Defined.

End SparsifierProperties.

(* ===================================================================== *)
(** * Further properties of the weight inspector                          *)
(* ===================================================================== *)

Section InspectorProperties.
Import Inspector.
Local Open Scope float_scope.

Ltac order_cases :=
  repeat match goal with
  | H : context [Pos.compare_cont Eq ?a ?b] |- _ =>
      change (Pos.compare_cont Eq a b) with (Pos.compare a b) in H
  | |- context [Pos.compare_cont Eq ?a ?b] =>
      change (Pos.compare_cont Eq a b) with (Pos.compare a b)
  end;
  repeat match goal with
  | H : context [Z.compare ?a ?b] |- _ => destruct (Z.compare_spec a b); simpl in H
  | |- context [Z.compare ?a ?b] => destruct (Z.compare_spec a b); simpl
  | H : context [Pos.compare ?a ?b] |- _ => destruct (Pos.compare_spec a b); simpl in H
  | |- context [Pos.compare ?a ?b] => destruct (Pos.compare_spec a b); simpl
  end;
  subst; try discriminate; try reflexivity; try lia.

Lemma SFleb_antisym a b :
  SFleb a b = true -> SFleb b a = true -> SFeqb a b = true.
Proof.
  unfold SFleb, SFeqb.
  destruct a as [[|]|[|]| |[|] ma ea], b as [[|]|[|]| |[|] mb eb];
    simpl; intros H1 H2; try discriminate; try reflexivity; order_cases.
Qed.

(** Two weights each at most the other are equal numbers. *)
Lemma leb_antisym (x y : float) :
  PrimFloat.leb x y = true -> PrimFloat.leb y x = true ->
  PrimFloat.eqb x y = true.
Proof.
  rewrite !FloatAxioms.leb_spec, FloatAxioms.eqb_spec. apply SFleb_antisym.
Qed.

Lemma pairwise_impl {A : Type} (R R' : A -> A -> Prop) (l : list A) :
  (forall a b, R a b -> R' a b) -> pairwise R l -> pairwise R' l.
Proof.
  intros H. induction l as [|x l IH]; simpl; [auto|].
  intros [Hx Hl]. split; [|auto]. eapply List.Forall_impl; [|exact Hx]. auto.
Qed.

Lemma pairwise_perm {A : Type} (R : A -> A -> Prop) (l l' : list A) :
  (forall a b, R a b -> R b a) ->
  Permutation l l' -> pairwise R l -> pairwise R l'.
Proof.
  intros Hsym. induction 1 as [|x l l' Hp IH|x y l|l l' l'' _ IH1 _ IH2]; simpl.
  - auto.
  - intros [Hx Hl]. split; [|auto]. eapply Permutation_Forall; eauto.
  - intros [Hy [Hx Hl]]. inversion Hy as [|? ? Hyx Hyl]; subst.
    split; [constructor; auto|]. split; assumption.
  - auto.
Qed.

Lemma pairwise_zip {A B : Type} (R : B -> B -> Prop) (ks : list A) (vs : list B) :
  pairwise R vs ->
  pairwise (fun a b : A * B => R (snd a) (snd b)) (zip ks vs).
Proof.
  revert ks. induction vs as [|v vs IH]; intros [|k ks]; simpl; auto.
  intros [Hv Hvs]. split; [|auto].
  apply List.Forall_forall. intros [k' v'] Hin.
  rewrite List.Forall_forall in Hv. apply Hv.
  apply list_elem_of_In in Hin. apply list_elem_of_In.
  apply (elem_of_zip_r _ _ _ _ Hin).
Qed.

Lemma forall_zip_snd {A B : Type} (P : B -> Prop) (ks : list A) (vs : list B) :
  List.Forall P vs -> List.Forall (fun r : A * B => P (snd r)) (zip ks vs).
Proof.
  intros H. apply List.Forall_forall. intros [k v] Hin.
  rewrite List.Forall_forall in H. apply H.
  apply list_elem_of_In in Hin. apply list_elem_of_In.
  apply (elem_of_zip_r _ _ _ _ Hin).
Qed.

Lemma filter_all_true {A : Type} (p : A -> bool) (l : list A) :
  List.Forall (fun x => p x = true) l -> List.filter p l = l.
Proof.
  induction 1 as [|x l Hx _ IH]; simpl; [reflexivity|]. now rewrite Hx, IH.
Qed.

Lemma filter_all_false {A : Type} (p : A -> bool) (l : list A) :
  List.Forall (fun x => p x = false) l -> List.filter p l = [].
Proof.
  induction 1 as [|x l Hx _ IH]; simpl; [reflexivity|]. now rewrite Hx.
Qed.

(** A table without two equal weights has one descending order. *)
Lemma descending_order_unique {I : Type} (l1 l2 : list (I * float)) :
  pairwise (fun a b : I * float =>
              ~ (PrimFloat.leb (snd a) (snd b) = true /\
                 PrimFloat.leb (snd b) (snd a) = true)) l1 ->
  StronglySorted desc l1 -> StronglySorted desc l2 ->
  Permutation l1 l2 -> l1 = l2.
Proof.
  revert l2. induction l1 as [|a t1 IH]; intros l2 Hpw Hs1 Hs2 Hp.
  - apply Permutation_nil in Hp. now subst.
  - destruct l2 as [|b t2]; [apply Permutation_sym, Permutation_nil in Hp; discriminate|].
    assert (Ha : In a (b :: t2)) by (eapply Permutation_in; [exact Hp | now left]).
    assert (Hb : In b (a :: t1))
      by (eapply Permutation_in; [symmetry; exact Hp | now left]).
    destruct Hpw as [Hpa Hpt].
    apply StronglySorted_inv in Hs1. destruct Hs1 as [Hs1 Hf1].
    apply StronglySorted_inv in Hs2. destruct Hs2 as [Hs2 Hf2].
    assert (Heq : a = b).
    { destruct Ha as [Ha|Ha]; [now subst|]. destruct Hb as [Hb|Hb]; [exact Hb|].
      exfalso. rewrite List.Forall_forall in Hpa, Hf1, Hf2.
      apply (Hpa b Hb). split.
      - exact (Hf2 a Ha).
      - exact (Hf1 b Hb). }
    subst b. f_equal. apply IH; try assumption.
    now apply Permutation_cons_inv in Hp.
Qed.

(** X8. The cell shows a table exactly when the fitted weight vector has
    one weight per column of the training frame; otherwise building the
    table raises ValueError and nothing is shown. *)
Theorem inspect_needs_one_weight_per_column (coef : list float)
  (cols : list string) :
  ((exists top, inspect coef cols top) <-> length coef = length cols) /\
  (make_weight_frame coef cols = Raise ValueError <-> length coef <> length cols).
Proof.
  split; split.
  - intros [top H]. now destruct (inspect_rows coef cols top H).
  - intros E. exists (head 30 (stable_sort_desc (zip cols coef))).
    apply (inspect_intro coef cols _ E). apply stable_sort_admissible.
  - unfold make_weight_frame.
    destruct (Nat.eqb (length coef) (length cols)) eqn:E; [discriminate|].
    intros _. now apply Nat.eqb_neq.
  - intros Hne. unfold make_weight_frame.
    now destruct (Nat.eqb_neq (length coef) (length cols)) as [_ ->].
Qed.

(** X9. When no fitted weight is NaN and no two fitted weights are equal,
    the table the cell shows is determined: it is the first 30 rows of
    the one descending order of the weights, each weight under the label
    of its column. *)
Theorem inspect_unique_without_ties (coef : list float) (cols : list string)
  (top : list (string * float)) :
  pairwise differ coef ->
  List.Forall (fun w => PrimFloat.is_nan w = false) coef ->
  inspect coef cols top ->
  top = head 30 (stable_sort_desc (zip cols coef)).
Proof.
  intros Hdiff Hnum Hin.
  destruct (inspect_rows coef cols top Hin) as [_ [sorted [Hs ->]]].
  set (rows := zip cols coef) in *.
  assert (Hrn : List.Forall (fun r : string * float => num_row r = true) rows).
  { unfold rows. eapply List.Forall_impl;
      [|apply (forall_zip_snd (fun w => PrimFloat.is_nan w = false)); exact Hnum].
    intros r Hr. unfold num_row, nan_row. now rewrite Hr. }
  assert (Hfn : List.filter num_row rows = rows) by now apply filter_all_true.
  assert (Hfa : List.filter nan_row rows = @nil (string * float)).
  { apply filter_all_false. eapply List.Forall_impl; [|exact Hrn].
    intros r Hr. unfold num_row in Hr. now apply negb_true_iff in Hr. }
  assert (Hpw : pairwise (fun a b : string * float =>
                  ~ (PrimFloat.leb (snd a) (snd b) = true /\
                     PrimFloat.leb (snd b) (snd a) = true)) rows).
  { unfold rows.
    apply (pairwise_zip (fun a b : float =>
             ~ (PrimFloat.leb a b = true /\ PrimFloat.leb b a = true))).
    eapply pairwise_impl; [|exact Hdiff].
    intros a b Hab [H1 H2]. unfold differ in Hab.
    rewrite (leb_antisym a b H1 H2) in Hab. discriminate. }
  f_equal.
  destruct Hs as [body [tail [-> [Hb [Ht Hsorted]]]]].
  rewrite Hfn in Hb. rewrite Hfa in Ht. apply Permutation_nil in Ht. subst tail.
  destruct (stable_sort_admissible rows) as [body' [tail' [E' [Hb' [Ht' Hs']]]]].
  rewrite Hfn in Hb'. rewrite Hfa in Ht'. apply Permutation_nil in Ht'. subst tail'.
  rewrite E'. f_equal. symmetry.
  apply descending_order_unique; try assumption.
  - eapply pairwise_perm; [|exact Hb'|exact Hpw]. intros a b H [H1 H2]. auto.
  - etransitivity; [symmetry; exact Hb' | exact Hb].
Qed.

Lemma inspect_unique_without_ties_witness :
  pairwise differ toy_coef /\
  inspect toy_coef toy_cols [("radar", 3); ("make_Dix", 2); ("airframe", 1)].
Proof.
  assert (Hd : pairwise differ toy_coef) by (repeat constructor).
  assert (Hn : List.Forall (fun w => PrimFloat.is_nan w = false) toy_coef)
    by (repeat constructor).
  assert (H : inspect toy_coef toy_cols
                [("radar", 3); ("make_Dix", 2); ("airframe", 1)]).
  { apply (inspect_intro toy_coef toy_cols
             [("radar", 3); ("make_Dix", 2); ("airframe", 1)] eq_refl).
    apply (stable_sort_admissible (zip toy_cols toy_coef)). }
  split; [exact Hd|].
  rewrite (inspect_unique_without_ties toy_coef toy_cols _ Hd Hn H). exact H.
Defined.

End InspectorProperties.

(* ===================================================================== *)
(** * Further properties of the run                                       *)
(* ===================================================================== *)

Section RunProperties.
Import Sparsifier Binarizer Baseline Selector Inspector Notebook.

Context {Estimator : Type}.
Variable fit : params -> coo_matrix -> list Z -> result Estimator.
Variable predict : Estimator -> coo_matrix -> result (list Z).
Variable coef_ : Estimator -> list float.
Variable kfold : nat -> coo_matrix -> list Z -> result (list cv_split).

Abbreviation store := (Notebook.store Estimator).

Lemma store_ok_empty : store_ok Estimator (empty_store _).
Proof. intros x l H. unfold empty_store in H. cbn [env] in H. now rewrite lookup_empty in H. Qed.

Lemma store_ok_new (x : string) (o : obj Estimator) (s : store) :
  store_ok _ s -> store_ok _ (new _ x o s).
Proof.
  intros Hs y l. unfold new, assign, alloc. cbn [env next fst snd].
  rewrite lookup_insert. case_decide.
  - intros Hl. injection Hl as <-. lia.
  - intros Hl. specialize (Hs y l Hl). lia.
Qed.

Lemma store_ok_update (l : nat) (o : obj Estimator) (s : store) :
  store_ok _ s -> store_ok _ (update _ l o s).
Proof. intros Hs y l'. unfold update. cbn [env next]. apply Hs. Qed.

Lemma store_ok_load (files : pickles) :
  store_ok _ (cell_load Estimator files (empty_store _)).
Proof. unfold cell_load. repeat apply store_ok_new. apply store_ok_empty. Qed.

Lemma deref_new_eq (x : string) (o : obj Estimator) (s : store) :
  deref _ (new _ x o s) x = Some o.
Proof. unfold deref. now rewrite env_new_eq, heap_new_eq. Qed.

Lemma deref_new_other (x y : string) (o : obj Estimator) (s : store) :
  store_ok _ s -> x <> y -> deref _ (new _ x o s) y = deref _ s y.
Proof. intros Hs Hne. apply deref_new_ne; [exact Hne|]. intros l. apply Hs. Qed.

Lemma deref_update_other (l : nat) (y : string) (o : obj Estimator) (s : store) :
  env _ s !! y <> Some l -> deref _ (update _ l o s) y = deref _ s y.
Proof.
  intros Hne. unfold deref, update. cbn [env heap].
  destruct (env _ s !! y) as [l'|]; [|reflexivity].
  rewrite lookup_insert_ne; [reflexivity | congruence].
Qed.

Ltac ok_store :=
  solve [ assumption
        | repeat (apply store_ok_new || apply store_ok_update);
          first [assumption | apply store_ok_load | apply store_ok_empty] ].

Ltac deref_simpl :=
  repeat (rewrite deref_new_eq
          || rewrite deref_new_other by (first [ok_store | discriminate])).

(** What each cell does on a store in which the variables it reads name
    objects of the right kind. *)
Lemma sparsify_var_eq (target source : string) (s : store) (A : frame Z float) :
  deref _ s source = Some (ODense _ A) ->
  sparsify_var _ target source s =
  rbind (sparsify A) (fun m => Ok (new _ target (OCoo _ m) s)).
Proof.
  intros H. unfold sparsify_var, read. rewrite H. cbn [obind as_dense].
  now destruct (sparsify A).
Qed.

Lemma binarize_var_eq (y : string) (s : store) (A : frame Z pyobj) :
  deref _ s y = Some (OLabels _ A) ->
  binarize_var _ y s =
  rbind (binarize A) (fun v => Ok (new _ y (OSeries _ v) s)).
Proof.
  intros H. unfold binarize_var, read. rewrite H. cbn [obind binarize_obj].
  now destruct (binarize A).
Qed.

Lemma cell_sparsify_eq (s : store) (A B : frame Z float) :
  store_ok _ s ->
  deref _ s "X_train_tfidf" = Some (ODense _ A) ->
  deref _ s "X_test_tfidf" = Some (ODense _ B) ->
  cell_sparsify _ s =
  rbind (sparsify A) (fun ma =>
  rbind (sparsify B) (fun mb =>
    Ok (new _ "X_test_sparse" (OCoo _ mb)
          (new _ "X_train_sparse" (OCoo _ ma) s), []))).
Proof.
  intros Hs HA HB. unfold cell_sparsify.
  rewrite (sparsify_var_eq _ _ s A HA).
  destruct (sparsify A) as [ma|e]; cbn [rbind obind]; [|reflexivity].
  rewrite (sparsify_var_eq _ _ _ B) by (deref_simpl; exact HB).
  now destruct (sparsify B).
Qed.

Lemma cell_binarize_eq (s : store) (A B : frame Z pyobj) :
  store_ok _ s ->
  deref _ s "y_train" = Some (OLabels _ A) ->
  deref _ s "y_test" = Some (OLabels _ B) ->
  cell_binarize _ s =
  rbind (binarize A) (fun a =>
  rbind (binarize B) (fun b =>
    Ok (new _ "y_test" (OSeries _ b) (new _ "y_train" (OSeries _ a) s), []))).
Proof.
  intros Hs HA HB. unfold cell_binarize.
  rewrite (binarize_var_eq _ s A HA).
  destruct (binarize A) as [a|e]; cbn [rbind obind]; [|reflexivity].
  rewrite (binarize_var_eq _ _ B) by (deref_simpl; exact HB).
  now destruct (binarize B).
Qed.

Lemma cell_baseline_eq (s : store) (y : series Z Z) :
  deref _ s "y_test" = Some (OSeries _ y) ->
  cell_baseline _ s =
  rbind (baseline_accuracy y) (fun b => Ok (s, [Print "The baseline accuracy is" b])).
Proof.
  intros H. unfold cell_baseline, read. rewrite H. cbn [obind as_series].
  now destruct (baseline_accuracy y).
Qed.

Lemma cell_gridsearch_eq (s : store) (Xa Xb : coo_matrix) (ya yb : series Z Z) :
  store_ok _ s ->
  deref _ s "X_train_sparse" = Some (OCoo _ Xa) ->
  deref _ s "y_train" = Some (OSeries _ ya) ->
  deref _ s "X_test_sparse" = Some (OCoo _ Xb) ->
  deref _ s "y_test" = Some (OSeries _ yb) ->
  cell_gridsearch _ fit predict kfold s =
  obind (grid_fit _ fit predict kfold logreg_params Xa (s_values ya)) (fun gs =>
  obind (grid_score _ predict gs Xa (s_values ya)) (fun train_accuracy =>
  obind (grid_score _ predict gs Xb (s_values yb)) (fun test_accuracy =>
    Ok (new _ "logreg_grid" (OGrid _ gs)
          (new _ "logreg_params" (OParams _ logreg_params) s),
        [Print "Training accuracy:" train_accuracy;
         Print "Testing accuracy:" test_accuracy])))).
Proof.
  intros Hs H1 H2 H3 H4. unfold cell_gridsearch, read. cbv zeta.
  deref_simpl. rewrite H1, H2. cbn [obind as_params as_coo as_series].
  destruct (grid_fit _ fit predict kfold logreg_params Xa (s_values ya))
    as [[gs|e]|]; cbn [obind]; [|reflexivity|reflexivity].
  destruct (grid_score _ predict gs Xa (s_values ya)) as [a|e];
    cbn [obind]; [|reflexivity].
  deref_simpl. rewrite H3, H4. reflexivity.
Qed.

Lemma cell_inspect_eq (s : store) (gs : GridSearchCV Estimator) (A : frame Z float) :
  deref _ s "logreg_grid" = Some (OGrid _ gs) ->
  deref _ s "X_train_tfidf" = Some (ODense _ A) ->
  cell_inspect _ coef_ s =
  rbind (make_weight_frame (coef_ (best_estimator_ _ gs)) (labels A)) (fun df0 =>
  rbind (set_columns df0 ["Weight"]) (fun df =>
    Ok (update _ (next _ s) (OWeights _ df)
          (new _ "parameter_weight_df" (OWeights _ df0) s), []))).
Proof.
  intros H1 H2. unfold cell_inspect, read. rewrite H1, H2.
  cbn [obind as_grid as_dense].
  destruct (make_weight_frame (coef_ (best_estimator_ _ gs)) (labels A)) as [df0|e];
    cbn [rbind obind]; [|reflexivity].
  rewrite env_new_eq, heap_new_eq.
  now destruct (set_columns df0 ["Weight"]).
Qed.

(** The run of the cells over the store is the pipeline of their calls. *)
Lemma run_pipeline (files : pickles) :
  run _ (notebook _ fit predict coef_ kfold)
        (cell_load _ files (empty_store _)) =
  pipeline _ fit predict coef_ kfold files.
Proof.
  unfold pipeline, notebook. cbv zeta. cbn [run].
  rewrite (cell_sparsify_eq _ (train files) (test files));
    [|ok_store|unfold cell_load; deref_simpl; reflexivity
     |unfold cell_load; deref_simpl; reflexivity].
  destruct (sparsify (train files)) as [ma|e]; cbn [rbind obind]; [|reflexivity].
  destruct (sparsify (test files)) as [mb|e]; cbn [rbind obind fst snd];
    [|reflexivity].
  rewrite (cell_binarize_eq _ (train_severity files) (test_severity files));
    [|ok_store|unfold cell_load; deref_simpl; reflexivity
     |unfold cell_load; deref_simpl; reflexivity].
  destruct (binarize (train_severity files)) as [ytr|e]; cbn [rbind obind];
    [|reflexivity].
  destruct (binarize (test_severity files)) as [yte|e]; cbn [rbind obind fst snd];
    [|reflexivity].
  rewrite (cell_baseline_eq _ yte) by (deref_simpl; reflexivity).
  destruct (baseline_accuracy yte) as [b|e]; cbn [rbind obind fst snd];
    [|reflexivity].
  rewrite (cell_gridsearch_eq _ ma mb ytr yte);
    [|ok_store|unfold cell_load; deref_simpl; reflexivity..].
  destruct (grid_fit _ fit predict kfold logreg_params ma (s_values ytr))
    as [[gs|e]|]; cbn [obind fst snd]; [|reflexivity|reflexivity].
  destruct (grid_score _ predict gs ma (s_values ytr)) as [a_train|e];
    cbn [obind fst snd]; [|reflexivity].
  destruct (grid_score _ predict gs mb (s_values yte)) as [a_test|e];
    cbn [obind fst snd]; [|reflexivity].
  rewrite (cell_inspect_eq _ gs (train files));
    [|unfold cell_load; deref_simpl; reflexivity..].
  destruct (make_weight_frame (coef_ (best_estimator_ _ gs)) (labels (train files)))
    as [df0|e]; cbn [rbind obind]; [|reflexivity].
  destruct (set_columns df0 ["Weight"]) as [df|e]; cbn [rbind obind fst snd app];
    reflexivity.
Qed.

Lemma deref_update_new_other (x y : string) (o o' : obj Estimator) (s : store) :
  store_ok _ s -> x <> y ->
  deref _ (update _ (next _ s) o' (new _ x o s)) y = deref _ s y.
Proof.
  intros Hs Hne. rewrite deref_update_other.
  - now apply deref_new_other.
  - unfold new, assign, alloc. cbn [env fst snd].
    rewrite lookup_insert_ne by exact Hne.
    intros H. specialize (Hs y _ H). lia.
Qed.

Lemma sparsify_raise {I : Type} (X : frame I float) (e : exn) :
  sparsify X = Raise e -> e = ValueError /\ columns X = [].
Proof.
  intros He. destruct (columns X) as [|c rest] eqn:E.
  - rewrite (sparsify_no_column X E) in He. now injection He as <-.
  - rewrite sparsify_value in He by (rewrite E; discriminate). discriminate.
Qed.

Lemma binarize_cases {I : Type} (y : frame I pyobj) :
  (exists col, column y "cm_highestinjury" = Some col /\
               binarize y = Ok (Series (index y) (map (fun v => Z.b2z (is_fatal v)) col))) \/
  (column y "cm_highestinjury" = None /\ binarize y = Raise AttributeError).
Proof.
  destruct (column y "cm_highestinjury") as [col|] eqn:E.
  - left. exists col. split; [reflexivity | now apply binarize_column].
  - right. split; [reflexivity | now apply binarize_no_column].
Qed.

Lemma nonfatal_count_iff (col : list pyobj) :
  count_if (Z.eqb 0) (map (fun v => Z.b2z (is_fatal v)) col) <> 0%nat <->
  List.Exists (fun x => x <> PyStr "Fatal") col.
Proof.
  rewrite count_if_map. induction col as [|x col IH]; simpl.
  - split; [congruence | intros H; inversion H].
  - destruct (is_fatal x) eqn:E; simpl.
    + rewrite IH. split; [now right|].
      intros H. inversion H as [? ? Hx|]; subst; [|assumption].
      apply is_fatal_iff in E. contradiction.
    + split; [|discriminate]. intros _. left. intros ->.
      vm_compute in E. discriminate.
Qed.

Lemma baseline_cases {I : Type} (y : series I Z) :
  (count_if (Z.eqb 0) (s_values y) <> 0%nat /\ exists b, baseline_accuracy y = Ok b) \/
  (count_if (Z.eqb 0) (s_values y) = 0%nat /\ baseline_accuracy y = Raise KeyError).
Proof.
  unfold baseline_accuracy. rewrite getitem_value_counts.
  destruct (Nat.eqb (count_if (Z.eqb 0) (s_values y)) 0) eqn:E.
  - right. apply Nat.eqb_eq in E. auto.
  - left. apply Nat.eqb_neq in E. eauto.
Qed.

Lemma read_dense (x : string) (s : store) (o : obj Estimator) (A : frame Z float) :
  read _ x s = Ok o -> as_dense _ o = Ok A -> deref _ s x = Some (ODense _ A).
Proof.
  unfold read. destruct (deref _ s x) as [o'|]; [|discriminate].
  intros H. injection H as <-. destruct o'; try discriminate.
  intros H. now injection H as <-.
Qed.

Lemma sparsify_var_inv (target source : string) (s s' : store) :
  sparsify_var _ target source s = Ok s' ->
  exists A m, deref _ s source = Some (ODense _ A) /\ sparsify A = Ok m /\
              s' = new _ target (OCoo _ m) s.
Proof.
  intros H. unfold sparsify_var in H. repeat step H. injection H as <-.
  eexists _, _. split; [eapply read_dense; eassumption|]. split; [eassumption|reflexivity].
Qed.

Lemma binarize_var_inv (y : string) (s s' : store) :
  binarize_var _ y s = Ok s' ->
  exists v, s' = new _ y (OSeries _ v) s.
Proof.
  intros H. unfold binarize_var in H. repeat step H. injection H as <-. eauto.
Qed.


(** X13. Cell 3 can be run again: on such a store, after a run that
    succeeded a second run succeeds too and binds [X_train_sparse] and
    [X_test_sparse] to matrices equal to the first ones, held by new
    objects. *)
Theorem sparsify_cell_can_be_rerun (s s1 : store) (out : list output) :
  store_ok _ s -> cell_sparsify _ s = Ok (s1, out) ->
  exists s2,
    cell_sparsify _ s1 = Ok (s2, []) /\
    deref _ s2 "X_train_sparse" = deref _ s1 "X_train_sparse" /\
    deref _ s2 "X_test_sparse" = deref _ s1 "X_test_sparse" /\
    env _ s2 !! "X_train_sparse" <> env _ s1 !! "X_train_sparse" /\
    env _ s2 !! "X_test_sparse" <> env _ s1 !! "X_test_sparse".
Proof.
  intros Hs H. unfold cell_sparsify in H. repeat step H. injection H as <- _.
  match goal with
  | E1 : sparsify_var _ _ _ s = Done (Ok ?sa),
    E2 : sparsify_var _ _ _ ?sa = Done (Ok _) |- _ =>
      apply sparsify_var_inv in E1; destruct E1 as [A [ma [HA [EA ->]]]];
      apply sparsify_var_inv in E2; destruct E2 as [B [mb [HB [EB ->]]]]
  end.
  rewrite deref_new_other in HB by (first [ok_store | discriminate]).
  set (s1 := new _ "X_test_sparse" (OCoo _ mb) (new _ "X_train_sparse" (OCoo _ ma) s)).
  assert (Hs1 : store_ok _ s1) by (unfold s1; ok_store).
  exists (new _ "X_test_sparse" (OCoo _ mb) (new _ "X_train_sparse" (OCoo _ ma) s1)).
  split; [|split; [|split; [|split]]].
  - rewrite (cell_sparsify_eq s1 A B Hs1).
    + now rewrite EA, EB.
    + unfold s1. deref_simpl. exact HA.
    + unfold s1. deref_simpl. exact HB.
  - unfold s1. now deref_simpl.
  - unfold s1. now deref_simpl.
  - unfold s1, new, assign, alloc. cbn [env next fst snd].
    rewrite !(lookup_insert_ne _ "X_test_sparse" "X_train_sparse") by discriminate.
    rewrite !lookup_insert_eq. intros E. injection E as E. lia.
  - unfold s1, new, assign, alloc. cbn [env next fst snd].
    rewrite !lookup_insert_eq. intros E. injection E as E. lia.
Qed.

(** X14. Cell 4 cannot be run again: once it has succeeded, [y_train]
    names the binarized vector, a Series of integers; on it the comparison
    and the cast still go through, and the attribute access
    [.cm_highestinjury] raises AttributeError. *)
Theorem binarize_cell_cannot_be_rerun (s s1 : store) (out : list output) :
  cell_binarize _ s = Ok (s1, out) ->
  cell_binarize _ s1 = Raise AttributeError.
Proof.
  intros H. unfold cell_binarize in H. repeat step H. injection H as <- _.
  match goal with
  | E1 : binarize_var _ _ s = Done (Ok ?sa),
    E2 : binarize_var _ _ ?sa = Done (Ok _) |- _ =>
      apply binarize_var_inv in E1; destruct E1 as [ytr ->];
      apply binarize_var_inv in E2; destruct E2 as [yte ->]
  end.
  assert (Hd : deref _ (new _ "y_test" (OSeries _ yte) (new _ "y_train" (OSeries _ ytr) s))
                     "y_train" = Some (OSeries _ ytr)).
  { rewrite deref_new_ne; [apply deref_new_eq | discriminate |].
    intros l Hl. rewrite env_new_eq in Hl. injection Hl as <-.
    unfold new, assign, alloc. cbn [next fst snd]. lia. }
  unfold cell_binarize, binarize_var, read. now rewrite Hd.
Qed.

Lemma all_fatal_count (col : list pyobj) :
  count_if (Z.eqb 0) (map (fun v => Z.b2z (is_fatal v)) col) = 0%nat ->
  List.Forall (fun x => x = PyStr "Fatal") col.
Proof.
  rewrite count_if_map. induction col as [|x col IH]; simpl.
  - constructor.
  - destruct (is_fatal x) eqn:E; simpl.
    + intros H. constructor; [now apply is_fatal_iff | auto].
    + discriminate.
Qed.

(** X11. When the whole notebook runs through on four loaded inputs, it
    prints three lines and no other, in this order: the baseline accuracy
    of the binarized test labels, then the training and the testing
    accuracy of the search result; and at the end [X_train_sparse],
    [X_test_sparse], [y_train], [y_test] and [logreg_grid] name the
    sparse forms of the two loaded feature frames, the binarized forms of
    the two loaded label frames and the search fitted on the training
    pair, and [logreg_params] names the grid. *)
Theorem run_prints_and_bindings (files : pickles) (s : store) (out : list output) :
  run _ (notebook _ fit predict coef_ kfold)
        (cell_load _ files (empty_store _)) = Ok (s, out) ->
  exists ma mb ytr yte b gs train_accuracy test_accuracy,
    sparsify (train files) = Ok ma /\
    sparsify (test files) = Ok mb /\
    binarize (train_severity files) = Ok ytr /\
    binarize (test_severity files) = Ok yte /\
    baseline_accuracy yte = Ok b /\
    grid_fit _ fit predict kfold logreg_params ma (s_values ytr) = Ok gs /\
    grid_score _ predict gs ma (s_values ytr) = Ok train_accuracy /\
    grid_score _ predict gs mb (s_values yte) = Ok test_accuracy /\
    out = [Print "The baseline accuracy is" b;
           Print "Training accuracy:" train_accuracy;
           Print "Testing accuracy:" test_accuracy] /\
    deref _ s "X_train_sparse" = Some (OCoo _ ma) /\
    deref _ s "X_test_sparse" = Some (OCoo _ mb) /\
    deref _ s "y_train" = Some (OSeries _ ytr) /\
    deref _ s "y_test" = Some (OSeries _ yte) /\
    deref _ s "logreg_grid" = Some (OGrid _ gs) /\
    deref _ s "logreg_params" = Some (OParams _ logreg_params).
Proof.
  intros H. rewrite run_pipeline in H. unfold pipeline in H. cbv zeta in H.
  destruct (sparsify (train files)) as [ma|?]; cbn [obind] in H; [|discriminate].
  destruct (sparsify (test files)) as [mb|?]; cbn [obind] in H; [|discriminate].
  destruct (binarize (train_severity files)) as [ytr|?]; cbn [obind] in H;
    [|discriminate].
  destruct (binarize (test_severity files)) as [yte|?]; cbn [obind] in H;
    [|discriminate].
  destruct (baseline_accuracy yte) as [b|?] eqn:Eb; cbn [obind] in H; [|discriminate].
  destruct (grid_fit _ fit predict kfold logreg_params ma (s_values ytr))
    as [[gs|?]|] eqn:Eg; cbn [obind] in H; [|discriminate|discriminate].
  destruct (grid_score _ predict gs ma (s_values ytr)) as [a_train|?] eqn:Ea;
    cbn [obind] in H; [|discriminate].
  destruct (grid_score _ predict gs mb (s_values yte)) as [a_test|?] eqn:Et;
    cbn [obind] in H; [|discriminate].
  destruct (make_weight_frame (coef_ (best_estimator_ _ gs)) (labels (train files)))
    as [df0|?]; cbn [obind] in H; [|discriminate].
  destruct (set_columns df0 ["Weight"]) as [df|?]; cbn [obind] in H; [|discriminate].
  injection H as <- <-.
  exists ma, mb, ytr, yte, b, gs, a_train, a_test.
  split; [reflexivity|]. split; [reflexivity|]. split; [reflexivity|].
  split; [reflexivity|]. split; [exact Eb|]. split; [exact Eg|].
  split; [exact Ea|]. split; [exact Et|].
  split; [reflexivity|].
  split; [|split; [|split; [|split; [|split]]]];
    match goal with
    | |- deref _ (update _ _ ?o' (new _ ?x ?o ?s3)) ?y = _ =>
        transitivity (deref _ s3 y);
        [ refine (deref_update_new_other x y o o' s3 _ _);
          [unfold cell_load; ok_store | discriminate]
        | unfold cell_load; deref_simpl; reflexivity ]
    end.
Qed.

(** X12. The outcome of the three preprocessing cells (sparsify,
    binarize, baseline) on four loaded inputs, case by case. They run
    through exactly when both feature frames have a column, both label
    frames have the column [cm_highestinjury] and some test label is not
    ["Fatal"], and then print the baseline line and nothing else.
    Otherwise the first failing call decides: [ValueError] from [to_coo]
    when a feature frame has no column; else [AttributeError] when a
    label frame lacks the column; else [KeyError] from the look-up [[0]]
    when every test label is ["Fatal"]. No other exception occurs, and
    every call of the three cells is made on an object of the kind the
    cells are described on. *)
Theorem preprocessing_outcome (files : pickles) :
  match run _ (take 3 (notebook _ fit predict coef_ kfold))
              (cell_load _ files (empty_store _)) with
  | Done (Ok (s, out)) =>
      columns (train files) <> [] /\ columns (test files) <> [] /\
      (exists c, column (train_severity files) "cm_highestinjury" = Some c) /\
      (exists c, column (test_severity files) "cm_highestinjury" = Some c /\
                 List.Exists (fun x => x <> PyStr "Fatal") c) /\
      exists b, out = [Print "The baseline accuracy is" b]
  | Done (Raise ValueError) =>
      columns (train files) = [] \/ columns (test files) = []
  | Done (Raise AttributeError) =>
      columns (train files) <> [] /\ columns (test files) <> [] /\
      (column (train_severity files) "cm_highestinjury" = None \/
       column (test_severity files) "cm_highestinjury" = None)
  | Done (Raise KeyError) =>
      columns (train files) <> [] /\ columns (test files) <> [] /\
      (exists c, column (train_severity files) "cm_highestinjury" = Some c) /\
      exists c, column (test_severity files) "cm_highestinjury" = Some c /\
                List.Forall (fun x => x = PyStr "Fatal") c
  | Done (Raise _) => False
  | OutOfModel => False
  end.
Proof.
  unfold notebook. cbn [take run].
  rewrite (cell_sparsify_eq _ (train files) (test files));
    [|ok_store|unfold cell_load; deref_simpl; reflexivity
     |unfold cell_load; deref_simpl; reflexivity].
  destruct (sparsify (train files)) as [ma|e] eqn:E1; cbn [rbind obind].
  2:{ apply sparsify_raise in E1 as [-> Hc]. now left. }
  destruct (sparsify (test files)) as [mb|e] eqn:E2; cbn [rbind obind fst snd].
  2:{ apply sparsify_raise in E2 as [-> Hc]. now right. }
  assert (H1 : columns (train files) <> []).
  { intros Hc. rewrite (sparsify_no_column _ Hc) in E1. discriminate. }
  assert (H2 : columns (test files) <> []).
  { intros Hc. rewrite (sparsify_no_column _ Hc) in E2. discriminate. }
  rewrite (cell_binarize_eq _ (train_severity files) (test_severity files));
    [|ok_store|unfold cell_load; deref_simpl; reflexivity
     |unfold cell_load; deref_simpl; reflexivity].
  destruct (binarize_cases (train_severity files)) as [[ctr [Hctr ->]]|[Hctr ->]];
    cbn [rbind obind]; [|now auto].
  destruct (binarize_cases (test_severity files)) as [[cte [Hcte ->]]|[Hcte ->]];
    cbn [rbind obind fst snd]; [|now auto].
  rewrite (cell_baseline_eq _ (Series (index (test_severity files))
                                 (map (fun v => Z.b2z (is_fatal v)) cte)))
    by (deref_simpl; reflexivity).
  destruct (baseline_cases (Series (index (test_severity files))
                              (map (fun v => Z.b2z (is_fatal v)) cte)))
    as [[Hn [b ->]]|[Hz ->]]; cbn [rbind obind fst snd app s_values] in *.
  - split; [exact H1|]. split; [exact H2|]. split; [now exists ctr|].
    split; [|now exists b].
    exists cte. split; [exact Hcte|]. now apply nonfatal_count_iff.
  - split; [exact H1|]. split; [exact H2|]. split; [now exists ctr|].
    exists cte. split; [exact Hcte|]. now apply all_fatal_count.
Qed.

End RunProperties.

(* ===================================================================== *)
(** * The properties of the run on the toy inputs                         *)
(* ===================================================================== *)

Section ToyRunProperties.
Import Sparsifier Selector Inspector Notebook.
Local Open Scope float_scope.


Lemma sparsify_cell_can_be_rerun_witness :
  exists s1 s2,
    cell_sparsify _ (cell_load (list float) toy_files (empty_store _)) = Ok (s1, []) /\
    cell_sparsify _ s1 = Ok (s2, []) /\
    deref _ s2 "X_train_sparse" = deref _ s1 "X_train_sparse".
Proof.
  destruct (cell_sparsify _ (cell_load (list float) toy_files (empty_store _)))
    as [[[s1 out]|e]|] eqn:E.
  - destruct (sparsify_cell_can_be_rerun _ s1 out (store_ok_load toy_files) E)
      as [s2 [H1 [H2 _]]].
    exists s1, s2. vm_compute in E. injection E as _ <-.
    split; [reflexivity|]. split; [exact H1 | exact H2].
  - exfalso. vm_compute in E. discriminate.
  - exfalso. vm_compute in E. discriminate.
Defined.

Lemma binarize_cell_cannot_be_rerun_witness :
  exists s1,
    cell_binarize _ (cell_load (list float) toy_files (empty_store _)) = Ok (s1, []) /\
    cell_binarize _ s1 = Raise AttributeError.
Proof.
  destruct (cell_binarize _ (cell_load (list float) toy_files (empty_store _)))
    as [[[s1 out]|e]|] eqn:E.
  - pose proof (binarize_cell_cannot_be_rerun _ s1 out E) as He.
    exists s1. vm_compute in E. injection E as _ <-.
    split; [reflexivity | exact He].
  - exfalso. vm_compute in E. discriminate.
  - exfalso. vm_compute in E. discriminate.
Defined.

Lemma run_prints_and_bindings_witness :
  exists s,
    run _ (notebook _ toy_fit toy_predict toy_coef_ toy_kfold)
          (cell_load _ toy_files (empty_store _)) =
      Ok (s, [Print "The baseline accuracy is" 0.5;
              Print "Training accuracy:" 0.5;
              Print "Testing accuracy:" 0.5]) /\
    deref _ s "y_test" = Some (OSeries _ (Series [4; 5]%Z [0; 1]%Z)).
Proof.
  destruct (run _ (notebook _ toy_fit toy_predict toy_coef_ toy_kfold)
                (cell_load _ toy_files (empty_store _)))
    as [[[s out]|e]|] eqn:E.
  - destruct (run_prints_and_bindings toy_fit toy_predict toy_coef_ toy_kfold
                toy_files s out E)
      as [ma [mb [ytr [yte [b [gs [a_train [a_test
           [_ [_ [_ [Hyte [_ [_ [_ [_ [_ [_ [_ [_ [Hy _]]]]]]]]]]]]]]]]]]]]].
    exists s. vm_compute in E. injection E as _ <-. split; [reflexivity|].
    rewrite Hy. vm_compute in Hyte. injection Hyte as <-. reflexivity.
  - exfalso. vm_compute in E. discriminate.
  - exfalso. vm_compute in E. discriminate.
Defined.

End ToyRunProperties.
